(** * Flashcard deck creator (App.js): normalizer, deck client, workflow

    A shallow embedding of the logic of [src/App.js]:
    - the two parsers that [handleDeckTypeSelection] applies to the model's
      reply (vocabulary lines and question/answer blocks),
    - the payload construction and the failure classification of
      [sendRequestToApi],
    - [SelectionScreen.handleSubmit] and the screen state of [RootApp].

    JavaScript strings are sequences of UTF-16 code units; they are modelled
    as [list N].  The built-ins the code calls ([trim], [split], [replace],
    [match] with the one regular expression of the file) are written out
    with the semantics ECMAScript gives them. *)

From Stdlib Require Import NArith ZArith List Ascii String Bool Lia DecimalString.
From stdpp Require Import gmap list fin_maps.
Import ListNotations.

Local Open Scope N_scope.

(** ** JavaScript values that the code inspects *)

Definition jsstring := list N.

(** An ASCII literal as a sequence of code units. *)
Definition lit (s : string) : jsstring :=
  List.map N_of_ascii (list_ascii_of_string s).
Arguments lit : simpl never.

Definition LF : N := 10.
Definition SEMI : N := 59.
Definition LPAREN : N := 40.
Definition RPAREN : N := 41.

(** The values a response body can decode to, and what the handlers pass
    around.  Numbers stand for integer-valued numbers; the code only tests
    them for truthiness. *)
#[local] Unset Elimination Schemes.
Inductive jsval : Type :=
| VUndefined
| VNull
| VBool (b : bool)
| VNumber (n : Z)
| VString (s : jsstring)
| VArray (items : list jsval)
| VObject (props : gmap jsstring jsval).

(** What a [throw] (or a failing built-in) raises. *)
Inductive exn : Type :=
| TypeError                       (* property read on undefined or null, call of a non-function *)
| SyntaxError                     (* JSON.parse on text that is not JSON *)
| ReferenceError (ident : string) (* identifier that no enclosing scope declares *)
| JsError (message : jsval)       (* new Error(message) *)
| JsErrorFrom (cause : exn).      (* new Error(e.message) for a caught native error e *)
#[local] Set Elimination Schemes.

Inductive result (A : Type) : Type :=
| Ok (a : A)
| Throw (e : exn).
Arguments Ok {A} a.
Arguments Throw {A} e.

(** Sequencing of statements that may throw: [x ← r; k] runs [k] on the value
    of [r] and propagates an exception of [r] unchanged. *)
#[global] Instance result_bind : MBind result := fun A B k r =>
  match r with
  | Ok a => k a
  | Throw e => Throw e
  end.

#[global] Instance result_ret : MRet result := fun A a => Ok a.

(** [xs.map(f)] where the callback may throw: elements are visited from left
    to right and the first exception aborts the whole call. *)
Fixpoint map_throwing {A B} (f : A -> result B) (l : list A) : result (list B) :=
  match l with
  | [] => Ok []
  | a :: l' => b ← f a; bs ← map_throwing f l'; Ok (b :: bs)
  end.

(** ** String built-ins *)

Module Str.

(** WhiteSpace and LineTerminator code points: what [trim] strips and what
    the class [\s] matches. *)
Definition isWhiteSpace (c : N) : bool :=
  (c =? 9) || (c =? 10) || (c =? 11) || (c =? 12) || (c =? 13) || (c =? 32)
  || (c =? 160) || (c =? 5760) || ((8192 <=? c) && (c <=? 8202))
  || (c =? 8232) || (c =? 8233) || (c =? 8239) || (c =? 8287)
  || (c =? 12288) || (c =? 65279).

(** The four line terminators, which [.] does not match. *)
Definition isLineTerminator (c : N) : bool :=
  (c =? 10) || (c =? 13) || (c =? 8232) || (c =? 8233).

Fixpoint trimStart (s : jsstring) : jsstring :=
  match s with
  | c :: s' => if isWhiteSpace c then trimStart s' else s
  | [] => []
  end.

Definition trimEnd (s : jsstring) : jsstring := rev (trimStart (rev s)).

Definition trim (s : jsstring) : jsstring := trimEnd (trimStart s).

(** [Boolean(s)] for a string: the empty string is the only falsy one. *)
Definition truthy (s : jsstring) : bool :=
  match s with [] => false | _ :: _ => true end.

Fixpoint startsWith (p s : jsstring) : bool :=
  match p, s with
  | [], _ => true
  | a :: p', b :: s' => (a =? b) && startsWith p' s'
  | _ :: _, [] => false
  end.

(** [s.split(sep)] for a non-empty separator and no limit.  The scan goes
    left to right; at a position where [sep] occurs the piece read so far is
    emitted and the separator is skipped ([skip] counts the code units of it
    still to pass); the last piece is always emitted, also when empty. *)
Fixpoint split_from (sep : jsstring) (skip : nat) (piece : jsstring)
    (s : jsstring) : list jsstring :=
  match s with
  | [] => [rev piece]
  | c :: s' =>
      match skip with
      | S k => split_from sep k piece s'
      | O =>
          if startsWith sep s
          then rev piece :: split_from sep (Nat.pred (List.length sep)) [] s'
          else split_from sep O (c :: piece) s'
      end
  end.

Definition split (sep : jsstring) (s : jsstring) : list jsstring :=
  split_from sep O [] s.

(** [s.replace(pat, '')] with a string pattern: only the first occurrence of
    [pat] is removed, wherever it is. *)
Fixpoint remove_first (pat : jsstring) (s : jsstring) : jsstring :=
  if startsWith pat s then skipn (List.length pat) s
  else match s with
       | [] => []
       | c :: s' => c :: remove_first pat s'
       end.

End Str.

(** substring(0, n) *)
Definition substring0 (n : nat) (s : jsstring) : jsstring := firstn n s.

(** ** Regular expressions

    A backtracking matcher in continuation-passing style, as ECMAScript
    specifies pattern matching, for the constructs that occur in the one
    pattern of the file: [^], [$], an escaped character, a lazy and a greedy
    star over a character class, a non-capturing optional group and capturing
    groups. *)

Module RegExp.

Inductive regex : Type :=
| Bol                          (* ^ *)
| Eol                          (* $ *)
| Chr (c : N)                  (* \c *)
| StarLazy (cls : N -> bool)   (* cls*? *)
| StarGreedy (cls : N -> bool) (* cls* *)
| Seq (r1 r2 : regex)
| Opt (r : regex)              (* (?:r)? *)
| Group (i : nat) (r : regex). (* the i-th capturing parentheses *)

(** A match state: the index reached, the input from there on and the
    captures recorded so far. *)
Record mstate : Type := MState {
  endIndex : nat;
  rest : jsstring;
  captures : gmap nat jsstring
}.

Definition continuation := mstate -> option mstate.

(** Lazy star: first the continuation, then one more code unit. *)
Fixpoint star_lazy (cls : N -> bool) (i : nat) (caps : gmap nat jsstring)
    (k : continuation) (s : jsstring) : option mstate :=
  match k (MState i s caps) with
  | Some y => Some y
  | None =>
      match s with
      | c :: s' => if cls c then star_lazy cls (S i) caps k s' else None
      | [] => None
      end
  end.

(** Greedy star: first one more code unit, then the continuation. *)
Fixpoint star_greedy (cls : N -> bool) (i : nat) (caps : gmap nat jsstring)
    (k : continuation) (s : jsstring) : option mstate :=
  match s with
  | c :: s' =>
      if cls c then
        match star_greedy cls (S i) caps k s' with
        | Some y => Some y
        | None => k (MState i s caps)
        end
      else k (MState i s caps)
  | [] => k (MState i s caps)
  end.

Fixpoint groups (r : regex) : list nat :=
  match r with
  | Seq r1 r2 => groups r1 ++ groups r2
  | Opt r => groups r
  | Group i r => i :: groups r
  | _ => []
  end.

Fixpoint run (r : regex) (x : mstate) (k : continuation) : option mstate :=
  match r with
  | Bol => if Nat.eqb (endIndex x) 0 then k x else None
  | Eol => match rest x with [] => k x | _ :: _ => None end
  | Chr c =>
      match rest x with
      | c' :: s' =>
          if c =? c' then k (MState (S (endIndex x)) s' (captures x)) else None
      | [] => None
      end
  | StarLazy cls => star_lazy cls (endIndex x) (captures x) k (rest x)
  | StarGreedy cls => star_greedy cls (endIndex x) (captures x) k (rest x)
  | Seq r1 r2 => run r1 x (fun y => run r2 y k)
  | Opt r =>
      (* one iteration with the captures of the group cleared, refusing an
         empty iteration; otherwise zero iterations *)
      let xr := MState (endIndex x) (rest x)
                  (foldr (fun i caps => delete i caps) (captures x) (groups r)) in
      match run r xr (fun y =>
              if Nat.eqb (endIndex y) (endIndex x) then None else k y) with
      | Some z => Some z
      | None => k x
      end
  | Group i r =>
      run r x (fun y =>
        k (MState (endIndex y) (rest y)
             (<[i := firstn (endIndex y - endIndex x) (rest x)]> (captures y))))
  end.

(** [RegExp.prototype.exec] without the global and sticky flags: the first
    index from 0 on at which the pattern matches, or [None] for [null]. *)
Fixpoint exec_at (r : regex) (i : nat) (s : jsstring) : option mstate :=
  match run r (MState i s ∅) Some with
  | Some y => Some y
  | None =>
      match s with
      | [] => None
      | _ :: s' => exec_at r (S i) s'
      end
  end.

Definition exec (r : regex) (s : jsstring) : option mstate := exec_at r 0 s.

(** Element [i] of the match array, [None] for a group that did not take
    part in the match. *)
Definition group (m : mstate) (i : nat) : option jsstring := captures m !! i.

End RegExp.

(** ** Language Normalizer: vocabulary lines *)

(** The card objects: the parsers set [original], [translated] and (for
    vocabulary) [baseForm]; the selection screen adds [selected].  [None] is
    [undefined], which is also what reading an absent property gives. *)
Record entry : Type := Entry {
  original : option jsstring;
  translated : option jsstring;
  baseForm : option jsstring;
  selected : option bool
}.

(** [.] of a pattern without the [s] flag. *)
Definition dot (c : N) : bool := negb (Str.isLineTerminator c).

(** The pattern [/^(.*?)(?:\s*\((.*?)\))?$/] of [handleDeckTypeSelection]:
    first its optional part, [\s*\((.*?)\)], then the whole. *)
Definition parenthesized : RegExp.regex :=
  RegExp.Seq (RegExp.StarGreedy Str.isWhiteSpace)
    (RegExp.Seq (RegExp.Chr LPAREN)
       (RegExp.Seq (RegExp.Group 2 (RegExp.StarLazy dot))
          (RegExp.Chr RPAREN))).

Definition vocabulary_pattern : RegExp.regex :=
  RegExp.Seq RegExp.Bol
    (RegExp.Seq (RegExp.Group 1 (RegExp.StarLazy dot))
       (RegExp.Seq (RegExp.Opt parenthesized) RegExp.Eol)).

(** [a || b] on values that are a string or [undefined]. *)
Definition or_else (a b : option jsstring) : option jsstring :=
  match a with
  | Some (_ :: _) => a
  | _ => b
  end.

(** The callback of the last [map] of the vocabulary branch:
    [const [original, translated] = line.split(';').map(w => w.trim())],
    then the match of [original] against the pattern. *)
Definition parseVocabularyLine (line : jsstring) : result entry :=
  let parts := List.map Str.trim (Str.split [SEMI] line) in
  let original := parts !! 0%nat in
  let translated := parts !! 1%nat in
  match original with
  | None => Throw TypeError
  | Some o =>
      match RegExp.exec vocabulary_pattern o with
      | Some m =>
          let baseForm := RegExp.group m 1 in
          let originalForm := RegExp.group m 2 in
          Ok (Entry (or_else originalForm baseForm) translated baseForm None)
      | None => Ok (Entry original translated None None)
      end
  end.

(** [wordList.split('\n').map(w => w.trim()).filter(Boolean)] *)
Definition vocabularyLines (wordList : jsstring) : list jsstring :=
  List.filter Str.truthy (List.map Str.trim (Str.split [LF] wordList)).

Definition parseVocabulary (wordList : jsstring) : result (list entry) :=
  map_throwing parseVocabularyLine (vocabularyLines wordList).

(** ** Language Normalizer: question/answer blocks *)

(** [response.split('\n\n').filter(Boolean)] *)
Definition qaBlocks (response : jsstring) : list jsstring :=
  List.filter Str.truthy (Str.split [LF; LF] response).

(** [line.replace(marker, '').trim()] on a value that may be [undefined]:
    reading [replace] from [undefined] throws a TypeError. *)
Definition stripMarker (marker : jsstring) (line : option jsstring)
  : result jsstring :=
  match line with
  | Some l => Ok (Str.trim (Str.remove_first marker l))
  | None => Throw TypeError
  end.

(** The callback of the [map] of the qa branch:
    [const [question, answer] = pair.split('\n')]. *)
Definition parseQAPair (pair : jsstring) : result entry :=
  let lines := Str.split [LF] pair in
  let question := lines !! 0%nat in
  let answer := lines !! 1%nat in
  q ← stripMarker (lit "F: ") question;
  a ← stripMarker (lit "A: ") answer;
  Ok (Entry (Some a) (Some q) None None).

Definition parseQA (response : jsstring) : result (list entry) :=
  map_throwing parseQAPair (qaBlocks response).

(** ** Lexical scopes

    The file calls a translation helper [t] in many places.  Each screen
    component declares its own [const t]; whether a call [t(...)] has a
    function to call depends on the scopes that enclose it.  A scope chain is
    the list of the declared identifiers, innermost first. *)

Inductive binding : Type :=
| Function1 (f : jsstring -> jsstring) (* a function from a string to a string *)
| Other.                                (* anything else; never called below *)

Definition scope := list (string * binding).

Fixpoint resolve (sc : scope) (ident : string) : option binding :=
  match sc with
  | [] => None
  | (x, b) :: sc' => if String.eqb x ident then Some b else resolve sc' ident
  end.

(** The call [ident(arg)]. *)
Definition call (sc : scope) (ident : string) (arg : jsstring) : result jsstring :=
  match resolve sc ident with
  | None => Throw (ReferenceError ident)
  | Some (Function1 f) => Ok (f arg)
  | Some Other => Throw TypeError
  end.

Definition declare (names : list string) : scope :=
  List.map (fun x => (x, Other)) names.

(** The imports and top-level [const] declarations of App.js, and the
    globals of the host that the file names. *)
Definition module_scope : scope :=
  declare
    [ "GEMINI_API_KEY"; "React"; "useState"; "useEffect"; "useCallback";
      "View"; "Text"; "TouchableOpacity"; "TextInput"; "ActivityIndicator";
      "ScrollView"; "Alert"; "Image"; "StyleSheet"; "Platform"; "Ionicons";
      "ImagePicker"; "axios"; "languages"; "translations"; "getTranslation";
      "imageToBase64"; "askLLM"; "sendRequestToFlashExp"; "sendRequestToApi";
      "styles"; "WelcomeScreen"; "LanguageScreen"; "InputScreen";
      "TextInputScreen"; "ProcessingScreen"; "PreviewScreen";
      "SelectionScreen"; "ResultScreen"; "DeckTypeScreen"; "RootApp";
      "console"; "window"; "document"; "process"; "fetch"; "FileReader";
      "Promise"; "Error"; "JSON"; "TextDecoder"; "ArrayBuffer"; "Blob";
      "Boolean" ]%string.

(** Parameters and locals of [sendRequestToApi], then the module. *)
Definition sendRequestToApi_scope : scope :=
  declare
    [ "vocabulary"; "deckName"; "vocabObject"; "entry"; "payload";
      "response"; "textDecoder"; "textData"; "jsonData"; "e"; "blob"; "url";
      "link"; "error"; "errorMessage"; "decoder"; "text"; "errorData" ]%string
  ++ module_scope.

(** ** Deck Service Client *)

Definition truthy (v : jsval) : bool :=
  match v with
  | VUndefined | VNull => false
  | VBool b => b
  | VNumber n => negb (Z.eqb n 0)
  | VString s => Str.truthy s
  | VArray _ | VObject _ => true
  end.

(** [v.name]: a TypeError on [undefined] and [null]; of the other values
    only objects have the properties read here ([error], [message]). *)
Definition getProperty (v : jsval) (name : jsstring) : result jsval :=
  match v with
  | VUndefined | VNull => Throw TypeError
  | VObject props => Ok (default VUndefined (props !! name))
  | _ => Ok VUndefined
  end.

(** [v?.name] *)
Definition getPropertyOptional (v : jsval) (name : jsstring) : result jsval :=
  match v with
  | VUndefined | VNull => Ok VUndefined
  | _ => getProperty v name
  end.

(** [a || b], with [b] evaluated only when [a] is falsy. *)
Definition or_lazy (a : jsval) (b : result jsval) : result jsval :=
  if truthy a then Ok a else b.

(** The JSON body sent to the proxy. *)
Record payload : Type := Payload {
  deck_name : jsstring;
  vocabulary : gmap jsstring jsstring
}.

(** [obj[key] = value] for a string [value] on an object made by [{}],
    seen through its own properties (what [JSON.stringify] sends).  Every
    key makes an own property, but "__proto__": that assignment reaches the
    setter inherited from [Object.prototype], which ignores a value that is
    neither an object nor [null], and nothing is stored. *)
Definition setProperty (obj : gmap jsstring jsstring) (key value : jsstring)
  : gmap jsstring jsstring :=
  if bool_decide (key = lit "__proto__") then obj else <[key := value]> obj.

(** The [forEach] that fills [vocabObject], a plain object used as a map
    with string keys:
    [vocabObject[entry.translated.trim()] = entry.original.trim()].
    Reading [trim] from an [undefined] field throws a TypeError. *)
Fixpoint fillVocabObject (vocabulary : list entry)
    (vocabObject : gmap jsstring jsstring) : result (gmap jsstring jsstring) :=
  match vocabulary with
  | [] => Ok vocabObject
  | entry :: vocabulary' =>
      match translated entry, original entry with
      | Some tr, Some o =>
          fillVocabObject vocabulary' (setProperty vocabObject (Str.trim tr) (Str.trim o))
      | _, _ => Throw TypeError
      end
  end.

(** Lines 109-117 of [sendRequestToApi]. *)
Definition buildPayload (vocabulary : list entry) (deckName : jsstring)
  : result payload :=
  vocabObject ← fillVocabObject vocabulary ∅;
  Ok (Payload (if Str.truthy deckName then deckName else lit "Default Deck")
        vocabObject).

(** A response body: with [responseType: 'arraybuffer'] the transport hands
    over the raw bytes; anything else is an already decoded value. *)
Inductive body : Type :=
| ArrayBuffer (bytes : list N)
| Decoded (v : jsval).

Record response : Type := Response {
  status : Z;
  data : body
}.

(** What the [catch (error)] of [sendRequestToApi] can receive: an error of
    the transport, with its optional [response], [code] and [request], or an
    error raised inside the [try] block itself. *)
Inductive caught : Type :=
| AxiosError (response : option response) (code : option jsstring)
    (request : bool) (message : jsstring)
| Native (e : exn).

Definition error_response (error : caught) : option response :=
  match error with AxiosError r _ _ _ => r | Native _ => None end.
Definition error_code (error : caught) : option jsstring :=
  match error with AxiosError _ c _ _ => c | Native _ => None end.
Definition error_request (error : caught) : bool :=
  match error with AxiosError _ _ q _ => q | Native _ => false end.

(** [new Error(error.message)] *)
Definition rethrow_message (error : caught) : exn :=
  match error with
  | AxiosError _ _ _ m => JsError (VString m)
  | Native (JsError m) => JsError m
  | Native e => JsErrorFrom e
  end.

Definition decimal (n : Z) : jsstring := lit (NilZero.string_of_int (Z.to_int n)).

Section DeckServiceClient.

(** Built-ins of the host: the UTF-8 decoder (which never fails) and
    [JSON.parse] ([None] when it throws a SyntaxError). *)
Variable TextDecoder_decode : list N -> jsstring.
Variable JSON_parse : jsstring -> option jsval.

(** [t(text)] as written inside [sendRequestToApi]. *)
Definition t_api (text : jsstring) : result jsval :=
  s ← call sendRequestToApi_scope "t" text; Ok (VString s).

(** The [try] block of the [if (error.response)] branch. *)
Definition messageFromBody (r : response) : result jsval :=
  match data r with
  | ArrayBuffer bytes =>
      let text := TextDecoder_decode bytes in
      let parsed :=
        errorData ← match JSON_parse text with
                    | Some v => Ok v
                    | None => Throw SyntaxError
                    end;
        e ← getProperty errorData (lit "error");
        or_lazy e (m ← getProperty errorData (lit "message");
                   or_lazy m (t_api (lit "Server error"))) in
      match parsed with
      | Ok v => Ok v
      | Throw _ => Ok (VString text)   (* catch { errorMessage = text; } *)
      end
  | Decoded d =>
      e ← getPropertyOptional d (lit "error");
      or_lazy e (m ← getPropertyOptional d (lit "message");
                 or_lazy m (t_api (lit "Server error")))
  end.

(** The [switch (error.response.status)] of the inner [catch]. *)
Definition statusTable (status : Z) : result jsval :=
  match status with
  | 400%Z => t_api (lit "Bad Request")
  | 413%Z => t_api (lit "List too large")
  | 415%Z => t_api (lit "Invalid content type")
  | 429%Z => t_api (lit "Too many requests")
  | 500%Z => t_api (lit "Server error")
  | _ =>
      s ← call sendRequestToApi_scope "t" (lit "Server error");
      Ok (VString (s ++ lit " (" ++ decimal status ++ lit ")"))
  end.

(** The value of [errorMessage] at the end of the outer [catch]. *)
Definition errorMessage (error : caught) : result exn :=
  match error_response error with
  | Some r =>
      match messageFromBody r with
      | Ok v => Ok (JsError v)
      | Throw _ => v ← statusTable (status r); Ok (JsError v)
      end
  | None =>
      if bool_decide (error_code error = Some (lit "ECONNABORTED"))
      then v ← t_api (lit "Request timeout"); Ok (JsError v)
      else if bool_decide (error_code error = Some (lit "ERR_NETWORK"))
      then v ← t_api (lit "Network error"); Ok (JsError v)
      else if error_request error
      then v ← t_api (lit "No server response"); Ok (JsError v)
      else Ok (rethrow_message error)
  end.

(** The whole [catch (error)] block: it always ends in a [throw], either of
    [new Error(errorMessage)] or of what evaluating the message raised. *)
Definition catchBlock (error : caught) : exn :=
  match errorMessage error with
  | Ok e => e
  | Throw e => e
  end.

(** What the call [axios.post(...)] comes back with. *)
Inductive outcome : Type :=
| Fulfilled (r : response)
| Rejected (error : caught).

(** [if (response.data)] *)
Definition body_truthy (b : body) : bool :=
  match b with
  | ArrayBuffer _ => true
  | Decoded v => truthy v
  end.

(** What the user or the outside world can observe of a handler. *)
Inductive shown : Type :=
| Plain (s : jsstring)
| MessageOf (e : exn).            (* error.message *)

Inductive effect : Type :=
| Alert (title : jsstring) (message : shown)
| Post (p : payload)              (* the request to the proxy *)
| Download (filename : jsstring) (content : body).

(** [sendRequestToApi], given how the transport answers.  The inner
    [try { ... JSON.parse ... } catch (e) { }] of the success path swallows
    whatever it raises and changes nothing. *)
Definition sendRequestToApi (post : payload -> outcome)
    (vocabulary : list entry) (deckName : jsstring) : list effect * result bool :=
  match buildPayload vocabulary deckName with
  | Throw e => ([], Throw (catchBlock (Native e)))
  | Ok payload =>
      match post payload with
      | Rejected error => ([Post payload], Throw (catchBlock error))
      | Fulfilled r =>
          if body_truthy (data r)
          then ([Post payload;
                 Download ((if Str.truthy deckName then deckName
                            else lit "Anki-Cards") ++ lit ".apkg") (data r)],
                Ok true)
          else ([Post payload],
                Throw (catchBlock
                         (Native (JsError (VString (lit "Failed to generate Anki deck"))))))
      end
  end.

End DeckServiceClient.

(** ** Workflow: the state of [RootApp] and of the selection screen *)

Record Language : Type := {
  lang_code : jsstring;
  lang_name : jsstring;
  lang_flag : jsstring
}.

Inductive Step : Type :=
| StepLanguage | StepInput | StepText | StepDeckType | StepSelection | StepResult.

(** The [useState] cells of [RootApp], and those of [SelectionScreen]
    ([selectedWords], [isLoading]), which live while that screen is
    mounted. *)
Record AppState : Type := App {
  step : Step;
  selectedLanguage : option Language;
  processing : jsstring;
  downloadUrl : option jsstring;   (* [None] is [null] *)
  extractedWords : list entry;
  deckName : jsstring;
  inputText : jsstring;
  selectedWords : list entry;
  isLoading : bool
}.

Definition initialState : AppState :=
  App StepLanguage None [] (Some []) [] [] [] [] false.

Definition setStep (v : Step) (s : AppState) : AppState :=
  App v (selectedLanguage s) (processing s) (downloadUrl s) (extractedWords s)
    (deckName s) (inputText s) (selectedWords s) (isLoading s).
Definition setSelectedLanguage (v : option Language) (s : AppState) : AppState :=
  App (step s) v (processing s) (downloadUrl s) (extractedWords s)
    (deckName s) (inputText s) (selectedWords s) (isLoading s).
Definition setProcessing (v : jsstring) (s : AppState) : AppState :=
  App (step s) (selectedLanguage s) v (downloadUrl s) (extractedWords s)
    (deckName s) (inputText s) (selectedWords s) (isLoading s).
Definition setDownloadUrl (v : option jsstring) (s : AppState) : AppState :=
  App (step s) (selectedLanguage s) (processing s) v (extractedWords s)
    (deckName s) (inputText s) (selectedWords s) (isLoading s).
Definition setExtractedWords (v : list entry) (s : AppState) : AppState :=
  App (step s) (selectedLanguage s) (processing s) (downloadUrl s) v
    (deckName s) (inputText s) (selectedWords s) (isLoading s).
Definition setDeckName (v : jsstring) (s : AppState) : AppState :=
  App (step s) (selectedLanguage s) (processing s) (downloadUrl s)
    (extractedWords s) v (inputText s) (selectedWords s) (isLoading s).
Definition setInputText (v : jsstring) (s : AppState) : AppState :=
  App (step s) (selectedLanguage s) (processing s) (downloadUrl s)
    (extractedWords s) (deckName s) v (selectedWords s) (isLoading s).
Definition setSelectedWords (v : list entry) (s : AppState) : AppState :=
  App (step s) (selectedLanguage s) (processing s) (downloadUrl s)
    (extractedWords s) (deckName s) (inputText s) v (isLoading s).
Definition setIsLoading (v : bool) (s : AppState) : AppState :=
  App (step s) (selectedLanguage s) (processing s) (downloadUrl s)
    (extractedWords s) (deckName s) (inputText s) (selectedWords s) v.

(** [{ ...w, selected: v }] and [{ ...w, [field]: value }] *)
Definition withSelected (v : bool) (w : entry) : entry :=
  Entry (original w) (translated w) (baseForm w) (Some v).

Inductive field : Type := FieldTranslated | FieldOriginal.

Definition withField (f : field) (value : jsstring) (w : entry) : entry :=
  match f with
  | FieldTranslated => Entry (original w) (Some value) (baseForm w) (selected w)
  | FieldOriginal => Entry (Some value) (translated w) (baseForm w) (selected w)
  end.

(** [w.selected] as a condition, and [!w.selected]. *)
Definition isSelected (w : entry) : bool :=
  match selected w with Some b => b | None => false end.

(** [prev.map((word, i) => (i === index ? f(word) : word))] *)
Definition mapAt (index : nat) (f : entry -> entry) (prev : list entry) : list entry :=
  imap (fun i word => if Nat.eqb i index then f word else word) prev.

Definition updateWord (index : nat) (f : field) (value : jsstring)
    (s : AppState) : AppState :=
  setSelectedWords (mapAt index (withField f value) (selectedWords s)) s.

Definition toggleWord (index : nat) (s : AppState) : AppState :=
  setSelectedWords
    (mapAt index (fun word => withSelected (negb (isSelected word)) word)
       (selectedWords s)) s.

(** Mounting [SelectionScreen]: its state cells take their initial values,
    [words.map((w) => ({ ...w, selected: true }))] and [false]. *)
Definition mountSelection (s : AppState) : AppState :=
  setIsLoading false
    (setSelectedWords (List.map (withSelected true) (extractedWords s)) s).

(** Identifiers declared inside [RootApp], then the module.  Unlike the
    screen components, [RootApp] has no [const t]. *)
Definition RootApp_scope : scope :=
  declare
    [ "step"; "setStep"; "selectedLanguage"; "setSelectedLanguage";
      "processing"; "setProcessing"; "downloadUrl"; "setDownloadUrl";
      "extractedWords"; "setExtractedWords"; "deckName"; "setDeckName";
      "inputText"; "setInputText"; "handleTakePhoto"; "handleImageUpload";
      "processImage"; "handleTextProcessing"; "handleDeckTypeSelection";
      "resetApp"; "result"; "error"; "uri"; "base64Image"; "response";
      "text"; "type"; "content"; "deckNamePrompt"; "suggestedDeckName";
      "prompt"; "wordList"; "words"; "pairs"; "lang" ]%string
  ++ module_scope.

(** The language model as the workflow sees it.  A prompt is a fixed
    template around interpolated values; a request records the template and
    those values. *)
Inductive llm_request : Type :=
| DeckNameRequest (languageName excerpt : jsstring)
| VocabularyRequest (languageName content : jsstring)
| QARequest (languageName content : jsstring)
| ImageTextRequest (base64Image : jsstring).

(** The generated text, or [None] when the call or the decoding of its
    reply fails. *)
Definition llm := llm_request -> option jsstring.

(** [askLLM]: a missing or empty text is a failure too, and every failure is
    rethrown as one fixed error. *)
Definition askLLM (model : llm) (req : llm_request) : result jsstring :=
  match model req with
  | Some (c :: r) => Ok (c :: r)
  | _ => Throw (JsError (VString (lit "Failed to get a response from Gemini.")))
  end.

Definition sendRequestToFlashExp (model : llm) (req : llm_request)
  : result jsstring :=
  match askLLM model req with
  | Ok r => Ok r
  | Throw _ => Throw (JsError (VString (lit "Failed to get a response from GPT-4o.")))
  end.

Inductive deck_type : Type := Vocabulary | QA.

(** What the camera or the gallery returns. *)
Inductive picked : Type :=
| PickerFails (e : exn)
| Canceled
| Asset (base64 : result jsstring). (* what [imageToBase64] makes of its uri *)

Section Workflow.

(** [getTranslation] of './translations', and the host built-ins of the
    deck client. *)
Variable getTranslation : option Language -> jsstring -> jsstring.
Variable TextDecoder_decode : list N -> jsstring.
Variable JSON_parse : jsstring -> option jsval.

(** [Alert.alert(t(title), t(message))] where [t] is looked up in [sc]. *)
Definition alertT (sc : scope) (title message : jsstring) : result effect :=
  ti ← call sc "t" title;
  m ← call sc "t" message;
  Ok (Alert ti (Plain m)).

(** [SelectionScreen.handleSubmit]; the component declares
    [const t = (text) => getTranslation(selectedLanguage, text)].  While
    [processing] is a non-empty string [RootApp] renders the processing
    screen instead, so a failed submission finds the selection screen
    mounted afresh. *)
Definition handleSubmit (post : payload -> outcome) (s : AppState)
  : AppState * list effect :=
  let t := getTranslation (selectedLanguage s) in
  let s1 := setIsLoading true s in
  let finalWords := List.filter isSelected (selectedWords s1) in
  if Nat.eqb (List.length finalWords) 0 then
    (setIsLoading false s1,
     [Alert (t (lit "Error")) (Plain (t (lit "Please select at least one word.")))])
  else
    let progress := t (lit "Generating Anki deck...") in
    let s2 := setProcessing progress s1 in
    let finally (s' : AppState) :=
      let s'' := setIsLoading false (setProcessing [] s') in
      if Str.truthy progress then mountSelection s'' else s'' in
    let '(effects, result) :=
      sendRequestToApi TextDecoder_decode JSON_parse post finalWords (deckName s) in
    match result with
    | Ok true =>
        (* onSubmit(null): setDownloadUrl(null); setStep('result') *)
        (setIsLoading false
           (setProcessing [] (setStep StepResult (setDownloadUrl None s2))),
         effects ++ [Alert (t (lit "Success!"))
                       (Plain (t (lit "Your Anki deck has been downloaded!")))])
    | Ok false =>
        (finally s2,
         effects ++ [Alert (t (lit "Error")) (Plain (t (lit "Failed to generate deck")))])
    | Throw e =>
        (finally s2, effects ++ [Alert (t (lit "Error")) (MessageOf e)])
    end.

Definition handleTextProcessing (text : jsstring) (s : AppState) : AppState :=
  setProcessing []
    (setStep StepDeckType
       (setInputText text (setProcessing (lit "Processing text...") s))).

(** [processImage]: the state it leaves, the alerts, and the exception it
    rejects with, if any. *)
Definition processImage (model : llm) (base64 : result jsstring) (s : AppState)
  : AppState * list effect * option exn :=
  let tried : AppState * result unit :=
    match call RootApp_scope "t" (lit "Processing image...") with
    | Throw e => (s, Throw e)
    | Ok progress =>
        let s1 := setProcessing progress s in
        match base64 with
        | Throw e => (s1, Throw e)
        | Ok image =>
            match askLLM model (ImageTextRequest image) with
            | Throw e => (s1, Throw e)
            | Ok response =>
                (handleTextProcessing response
                   (setProcessing [] (setInputText response s1)), Ok ())
            end
        end
    end in
  match tried with
  | (s', Ok _) => (s', [], None)
  | (s', Throw _) =>
      match alertT RootApp_scope (lit "Error") (lit "Image processing failed") with
      | Ok a => (setProcessing [] s', [a], None)
      | Throw e => (s', [], Some e)
      end
  end.

(** [handleImageUpload] and [handleTakePhoto], which differ in the picker
    and in the text of the alert. *)
Definition handleImage (failure : jsstring) (model : llm) (p : picked)
    (s : AppState) : AppState * list effect :=
  let '(s', effects, rejected) :=
    match p with
    | PickerFails e => (s, [], Some e)
    | Canceled => (s, [], None)
    | Asset base64 => processImage model base64 s
    end in
  match rejected with
  | None => (s', effects)
  | Some _ =>
      match alertT RootApp_scope (lit "Error") failure with
      | Ok a => (s', effects ++ [a])
      | Throw _ => (s', effects)
      end
  end.

Definition handleImageUpload := handleImage (lit "Could not upload image").
Definition handleTakePhoto := handleImage (lit "Could not take photo").

(** [handleDeckTypeSelection(type, content)] *)
Definition handleDeckTypeSelection (model : llm) (type : deck_type)
    (content : jsstring) (s : AppState) : AppState * list effect :=
  let s1 := setProcessing (lit "Generating cards...") s in
  let failed (s' : AppState) :=
    (setProcessing [] s',
     [Alert (lit "Error") (Plain (lit "Failed to generate cards. Please try again."))]) in
  let generated (cards : list entry) (s' : AppState) :=
    (mountSelection
       (setProcessing [] (setStep StepSelection (setExtractedWords cards s'))),
     []) in
  match selectedLanguage s with
  | None => failed s1
  | Some lang =>
      match sendRequestToFlashExp model
              (DeckNameRequest (lang_name lang) (substring0 500 content)) with
      | Throw _ => failed s1
      | Ok suggestedDeckName =>
          let s2 := setDeckName (Str.trim suggestedDeckName) s1 in
          match type with
          | Vocabulary =>
              match sendRequestToFlashExp model
                      (VocabularyRequest (lang_name lang) content) with
              | Throw _ => failed s2
              | Ok wordList =>
                  match parseVocabulary wordList with
                  | Ok words => generated words s2
                  | Throw _ => failed s2
                  end
              end
          | QA =>
              match sendRequestToFlashExp model
                      (QARequest (lang_name lang) content) with
              | Throw _ => failed s2
              | Ok response =>
                  match parseQA response with
                  | Ok pairs => generated pairs s2
                  | Throw _ => failed s2
                  end
              end
          end
      end
  end.

Definition resetApp (s : AppState) : AppState :=
  setExtractedWords []
    (setDownloadUrl (Some [])
       (setProcessing []
          (setSelectedLanguage None (setStep StepLanguage s)))).

(** What the user can do, with how the outside world answers. *)
Inductive event : Type :=
| LanguageSelected (lang : Language)
| TextInputChosen
| ImageUploadChosen (p : picked) (model : llm)
| TakePhotoChosen (p : picked) (model : llm)
| TextSubmitted (text : jsstring)
| TypeSelected (type : deck_type) (model : llm)
| WordToggled (index : nat)
| WordUpdated (index : nat) (f : field) (value : jsstring)
| SubmitPressed (post : payload -> outcome)
| NewDeckPressed.

(** The render of [RootApp]: which screen is shown and which handler each of
    its controls runs.  [None]: the control is not on the screen (or is
    disabled). *)
Definition dispatch (s : AppState) (ev : event) : option (AppState * list effect) :=
  if Str.truthy (processing s) then None
  else
    match step s, ev with
    | StepLanguage, LanguageSelected lang =>
        Some (setStep StepInput (setSelectedLanguage (Some lang) s), [])
    | StepInput, TextInputChosen => Some (setStep StepText s, [])
    | StepInput, ImageUploadChosen p model => Some (handleImageUpload model p s)
    | StepInput, TakePhotoChosen p model => Some (handleTakePhoto model p s)
    | StepText, TextSubmitted text =>
        if Str.truthy text
        then Some (handleTextProcessing text (setInputText text s), [])
        else None
    | StepDeckType, TypeSelected type model =>
        Some (handleDeckTypeSelection model type (inputText s) s)
    | StepSelection, WordToggled index => Some (toggleWord index s, [])
    | StepSelection, WordUpdated index f value => Some (updateWord index f value s, [])
    | StepSelection, SubmitPressed post =>
        if Nat.eqb (List.length (List.filter isSelected (selectedWords s))) 0
           || isLoading s
        then None
        else Some (handleSubmit post s)
    | StepResult, NewDeckPressed => Some (resetApp s, [])
    | _, _ => None
    end.

End Workflow.

(** ** The proxy function (src/src/App.js, [exports.handler])

    The function that the client posts to: it forwards the payload to the
    conversion service, fetches the file the service points to and returns
    it.  The two upstream requests are oracles; the value returned is given
    before the host encodes it (the object handed to [JSON.stringify], the
    bytes handed to base64). *)

Record proxy_event : Type := ProxyEvent {
  httpMethod : jsstring;
  event_body : jsstring
}.

Inductive upstream_call : Type :=
| UpstreamPost (payload : jsval)   (* axios.post(convert-direct, payload) *)
| UpstreamGet (url : jsval).       (* axios.get(download_url) *)

(** The answer to the second request: with [responseType: 'arraybuffer'] its
    data are bytes. *)
Inductive file_outcome : Type :=
| FileFulfilled (bytes : list N)
| FileRejected (error : caught).

Inductive proxy_body : Type :=
| ErrorObject (error : jsval)      (* JSON.stringify({ error }) *)
| FileBytes (bytes : list N).      (* Buffer.from(data).toString('base64') *)

Record proxy_response : Type := ProxyResponse {
  statusCode : Z;
  attachment : option jsval;       (* the name before ".apkg" in Content-Disposition *)
  response_body : proxy_body;
  isBase64Encoded : option bool
}.

(** [x?.name] on a response body: raw bytes have no such property. *)
Definition bodyProperty (b : body) (name : jsstring) : jsval :=
  match b with
  | ArrayBuffer _ => VUndefined
  | Decoded d =>
      match getPropertyOptional d name with
      | Ok v => v
      | Throw _ => VUndefined
      end
  end.

Section ProxyFunction.

(** [JSON.parse], and the text an engine puts into the [message] of the
    errors it raises itself. *)
Variable JSON_parse : jsstring -> option jsval.
Variable engineMessage : exn -> jsstring.

(** [error.message] *)
Definition messageOf (error : caught) : jsval :=
  match error with
  | AxiosError _ _ _ m => VString m
  | Native (JsError (VString m)) => VString m
  | Native e => VString (engineMessage e)
  end.

(** The [catch (error)] of the handler. *)
Definition proxyFailure (error : caught) : proxy_response :=
  let status :=
    match error_response error with
    | Some r => if Z.eqb (status r) 0 then 500%Z else status r
    | None => 500%Z
    end in
  let fromBody :=
    match error_response error with
    | Some r => bodyProperty (data r) (lit "error")
    | None => VUndefined
    end in
  let message :=
    if truthy fromBody then fromBody
    else if truthy (messageOf error) then messageOf error
    else VString (lit "Internal server error") in
  ProxyResponse status None (ErrorObject message) None.

Definition handler (post : jsval -> outcome) (get : jsval -> file_outcome)
    (event : proxy_event) : proxy_response * list upstream_call :=
  if negb (bool_decide (httpMethod event = lit "POST")) then
    (ProxyResponse 405 None (ErrorObject (VString (lit "Method not allowed"))) None,
     [])
  else
    match JSON_parse (event_body event) with
    | None => (proxyFailure (Native SyntaxError), [])
    | Some payload =>
        match post payload with
        | Rejected error => (proxyFailure error, [UpstreamPost payload])
        | Fulfilled response =>
            let download_url := bodyProperty (data response) (lit "download_url") in
            if negb (truthy download_url) then
              (proxyFailure
                 (Native (JsError (VString (lit "No download URL in response")))),
               [UpstreamPost payload])
            else
              let calls := [UpstreamPost payload; UpstreamGet download_url] in
              match get download_url with
              | FileRejected error => (proxyFailure error, calls)
              | FileFulfilled bytes =>
                  (* the returned object reads payload.deck_name *)
                  match getProperty payload (lit "deck_name") with
                  | Throw e => (proxyFailure (Native e), calls)
                  | Ok name =>
                      (ProxyResponse 200
                         (Some (if truthy name then name
                                else VString (lit "Anki-Cards")))
                         (FileBytes bytes) (Some true),
                       calls)
                  end
              end
        end
    end.

End ProxyFunction.

(** ** [imageToBase64]: the data URL without its prefix *)

Definition COMMA : N := 44.

(** [result.split(',')[1]] *)
Definition base64Data (result : jsstring) : option jsstring :=
  Str.split [COMMA] result !! 1%nat.

(** ** Notions used in the statements *)

(** The key and the value an entry contributes to [vocabObject]. *)
Definition payloadKey (e : entry) : option jsstring := Str.trim <$> translated e.
Definition payloadValue (e : entry) : option jsstring := Str.trim <$> original e.

Definition hasStrings (e : entry) : Prop :=
  is_Some (translated e) /\ is_Some (original e).

(** The path conditions of the branches of the [catch] block that call [t]:
    the status table is entered when the [try] over the response body
    throws; the three transport branches when there is no response. *)
Definition reachesStatusTable (decode : list N -> jsstring)
    (parse : jsstring -> option jsval) (error : caught) : Prop :=
  exists r e, error_response error = Some r /\ messageFromBody decode parse r = Throw e.

Definition reachesTransportBranch (error : caught) : Prop :=
  error_response error = None /\
  (error_code error = Some (lit "ECONNABORTED") \/
   error_code error = Some (lit "ERR_NETWORK") \/
   error_request error = true).

(** A string with no leading and no trailing whitespace, in the two halves
    that [trim] looks at. *)
Definition startsClean (s : jsstring) : bool :=
  match s with
  | c :: _ => negb (Str.isWhiteSpace c)
  | [] => true
  end.

Definition endsClean (s : jsstring) : bool := startsClean (rev s).

Definition allWhiteSpace (s : jsstring) : Prop :=
  Forall (fun c => Str.isWhiteSpace c = true) s.

(** No line terminator, so that [.] matches every code unit. *)
Definition noLineBreak (s : jsstring) : Prop :=
  Forall (fun c => dot c = true) s.

(** A continuation that can only go on from a given next code unit, and one
    that can only go on at the end of the input. *)
Definition needsNext (c : N) (k : RegExp.continuation) : Prop :=
  forall z, hd_error (RegExp.rest z) <> Some c -> k z = None.

Definition atEndOnly (k : RegExp.continuation) : Prop :=
  forall z, RegExp.rest z <> [] -> k z = None.

(** The part of the vocabulary pattern after its first group. *)
Definition afterBase : RegExp.regex :=
  RegExp.Seq (RegExp.Opt parenthesized) RegExp.Eol.

(** [pieces.join(sep)], and a question/answer block as the prompt asks for
    it: the two markers, each with its space, before the two lines. *)
Fixpoint join (sep : jsstring) (pieces : list jsstring) : jsstring :=
  match pieces with
  | [] => []
  | [p] => p
  | p :: ps => p ++ sep ++ join sep ps
  end.

Definition qaBlock (q a : jsstring) : jsstring :=
  (lit "F: " ++ q) ++ LF :: (lit "A: " ++ a).

(** What [toggleWord] makes of a card. *)
Definition toggled (w : entry) : entry := withSelected (negb (isSelected w)) w.

(** The state cells of [RootApp], which the editor never writes. *)
Definition sameRootCells (s s' : AppState) : Prop :=
  step s' = step s /\ selectedLanguage s' = selectedLanguage s /\
  processing s' = processing s /\ downloadUrl s' = downloadUrl s /\
  extractedWords s' = extractedWords s /\ deckName s' = deckName s /\
  inputText s' = inputText s /\ isLoading s' = isLoading s.

(** The two text fields of a card. *)
Definition readField (f : field) (w : entry) : option jsstring :=
  match f with
  | FieldTranslated => translated w
  | FieldOriginal => original w
  end.

Definition otherField (f : field) : field :=
  match f with
  | FieldTranslated => FieldOriginal
  | FieldOriginal => FieldTranslated
  end.

(** The alert of a failed generation. *)
Definition cardsFailed : effect :=
  Alert (lit "Error") (Plain (lit "Failed to generate cards. Please try again.")).

(** ** Sample data *)

(** Host built-ins for the examples: bytes read as code units, and a body
    that is not JSON. *)
Definition latin1 (bytes : list N) : jsstring := bytes.
Definition not_json (text : jsstring) : option jsval := None.

(** A JSON parser that knows one document. *)
Definition too_big_body : jsstring :=
  lit "{" ++ [34] ++ lit "error" ++ [34] ++ lit ":" ++ [34] ++ lit "too big"
  ++ [34] ++ lit "}".
Definition parse_too_big (text : jsstring) : option jsval :=
  if bool_decide (text = too_big_body)
  then Some (VObject {[ lit "error" := VString (lit "too big") ]})
  else None.

Definition same_text (_ : option Language) (text : jsstring) : jsstring := text.

Definition deck_done : AppState :=
  App StepResult (Some (Build_Language (lit "de") (lit "Deutsch") (lit "DE")))
    [] None [Entry (Some (lit "house")) (Some (lit "Haus")) None None]
    (lit "Animals") (lit "Haus") [] false.

(** The example of the specification: three lines, the second without a
    semicolon. *)
Definition three_lines : jsstring :=
  lit "a;b" ++ [LF] ++ lit "cccc" ++ [LF] ++ lit "d;e".

Definition haus : entry := Entry (Some (lit "house")) (Some (lit "haus")) None (Some true).
Definition haus2 : entry := Entry (Some (lit "house2")) (Some (lit "haus")) None (Some false).

(** The selection screen with its one card deselected. *)
Definition nothing_selected : AppState :=
  App StepSelection (Some (Build_Language (lit "de") (lit "Deutsch") (lit "DE")))
    [] (Some []) [haus2] (lit "Animals") (lit "Haus") [haus2] false.

(** A transport that cannot reach the proxy. *)
Definition offline (p : payload) : outcome :=
  Rejected (AxiosError None (Some (lit "ERR_NETWORK")) true (lit "Network Error")).

(** A 413 whose body is the HTML page of a gateway, and one with no body. *)
Definition gateway_page : list N := lit "<html>413 Request Entity Too Large</html>".
Definition too_large_html : caught :=
  AxiosError (Some (Response 413 (ArrayBuffer gateway_page))) None true
    (lit "Request failed with status code 413").
Definition too_large_no_body : caught :=
  AxiosError (Some (Response 413 (Decoded VUndefined))) None true
    (lit "Request failed with status code 413").

Definition katze : entry := Entry (Some (lit "cat")) (Some (lit "Katze")) None (Some false).

(** The selection screen with one card selected and one not. *)
Definition one_selected : AppState :=
  App StepSelection (Some (Build_Language (lit "de") (lit "Deutsch") (lit "DE")))
    [] (Some []) [haus; katze] (lit "Animals") (lit "Haus") [haus; katze] false.

(** A transport that answers with a deck file. *)
Definition served (p : payload) : outcome :=
  Fulfilled (Response 200 (ArrayBuffer (lit "PK"))).

(** A card made of a line without semicolon, selected as mounted. *)
Definition no_translation : entry :=
  Entry (Some (lit "cccc")) None (Some (lit "cccc")) (Some true).
Definition untranslated_selected : AppState :=
  App StepSelection (Some (Build_Language (lit "de") (lit "Deutsch") (lit "DE")))
    [] (Some []) [no_translation] (lit "Animals") (lit "cccc") [no_translation] false.
(** The edges of the workflow: which screen can follow which. *)
Definition follows (a b : Step) : bool :=
  match a, b with
  | StepLanguage, StepInput
  | StepInput, StepInput | StepInput, StepText
  | StepText, StepDeckType
  | StepDeckType, StepDeckType | StepDeckType, StepSelection
  | StepSelection, StepSelection | StepSelection, StepResult
  | StepResult, StepLanguage => true
  | _, _ => false
  end.

(** The states in which the application waits for an event: the initial
    one, and the state that a handler leaves when it has run to its end,
    for an event of such a state.  The states in between, while a handler
    runs with its progress text in [processing] and the progress screen is
    shown, are not in this set. *)
Inductive atRest (getTranslation : option Language -> jsstring -> jsstring)
    (decode : list N -> jsstring) (parse : jsstring -> option jsval)
  : AppState -> Prop :=
| atRest_initial : atRest getTranslation decode parse initialState
| atRest_dispatch (s s' : AppState) (ev : event) (effects : list effect) :
    atRest getTranslation decode parse s ->
    dispatch getTranslation decode parse s ev = Some (s', effects) ->
    atRest getTranslation decode parse s'.

(** A model that suggests a deck name and answers the question/answer
    request with a single line. *)
Definition one_line_model (req : llm_request) : option jsstring :=
  match req with
  | DeckNameRequest _ _ => Some (lit " Paris ")
  | QARequest _ _ => Some (lit "F: only a question")
  | _ => None
  end.

Definition choosing_type : AppState :=
  App StepDeckType (Some (Build_Language (lit "de") (lit "Deutsch") (lit "DE")))
    [] (Some []) [] (lit "Animals") (lit "Wo liegt Paris?") [] false.

(** A model that answers every request with the same text. *)
Definition parrot (req : llm_request) : option jsstring := Some (lit "Haus;house").
(** Oracles for the proxy examples: a JSON parser that reads every body as
    [null], a conversion service that points to a file, and the file. *)
Definition parse_null (text : jsstring) : option jsval := Some VNull.
Definition no_engine_text (e : exn) : jsstring := lit "TypeError".
Definition converted (payload : jsval) : outcome :=
  Fulfilled (Response 200
               (Decoded (VObject {[ lit "download_url" := VString (lit "/f/1") ]}))).
Definition file_ready (url : jsval) : file_outcome := FileFulfilled (lit "PK").
Definition post_event : proxy_event := ProxyEvent (lit "POST") (lit "null").

(** A conversion service that refuses the payload. *)
Definition refused (payload : jsval) : outcome :=
  Rejected (AxiosError
              (Some (Response 413
                       (Decoded (VObject {[ lit "error" := VString (lit "too big") ]}))))
              None true (lit "Request failed with status code 413")).

(** * Properties *)

(** ** Calls that may throw *)

Lemma map_throwing_total {A B} (f : A -> result B) (l : list A) :
  (forall a, In a l -> exists b, f a = Ok b) ->
  exists r, map_throwing f l = Ok r.
Proof.
  induction l as [|a l IH]; intros Hall; cbn; [eauto|].
  destruct (Hall a (or_introl eq_refl)) as [b ->]. cbn.
  destruct IH as [r ->]; [intros x Hx; apply Hall; right; exact Hx|].
  cbn. eauto.
Qed.

Lemma map_throwing_lookup {A B} (f : A -> result B) (l : list A) (r : list B) :
  map_throwing f l = Ok r ->
  List.length r = List.length l /\
  forall (i : nat) a, l !! i = Some a -> exists b, f a = Ok b /\ r !! i = Some b.
Proof.
  revert r. induction l as [|a l IH]; intros r Hmap; cbn in Hmap.
  - injection Hmap as <-. split; [reflexivity|]. intros i a Hi. discriminate.
  - destruct (f a) as [b|] eqn:Hb; [|discriminate]. cbn in Hmap.
    destruct (map_throwing f l) as [bs|]; [|discriminate]. cbn in Hmap.
    injection Hmap as <-.
    destruct (IH bs eq_refl) as [Hlen Hlook].
    split; [cbn; congruence|].
    intros [|i] x Hi; cbn in Hi.
    + injection Hi as <-. eauto.
    + apply Hlook. exact Hi.
Qed.

Lemma map_throwing_throws {A B} (f : A -> result B) (l : list A) (e : exn) :
  (forall a e', f a = Throw e' -> e' = e) ->
  (exists a, In a l /\ exists e', f a = Throw e') ->
  map_throwing f l = Throw e.
Proof.
  intros Honly (a & Ha & e' & He').
  induction l as [|x l IH]; [destruct Ha|]. cbn.
  destruct (f x) as [b|ex] eqn:Hx; cbn.
  - destruct Ha as [-> | Ha]; [congruence|].
    rewrite (IH Ha). reflexivity.
  - rewrite (Honly _ _ Hx). reflexivity.
Qed.

(** ** [split] on a one-character separator *)

Lemma startsWith_single (c x : N) (s : jsstring) :
  Str.startsWith [c] (x :: s) = (c =? x).
Proof. cbn. apply andb_true_r. Qed.

Lemma split_from_nonempty (sep : jsstring) (skip : nat) (piece s : jsstring) :
  exists p ps, Str.split_from sep skip piece s = p :: ps.
Proof.
  revert skip piece. induction s as [|c s IH]; intros skip piece; cbn; [eauto|].
  destruct skip as [|k]; [|apply IH].
  destruct (Str.startsWith sep (c :: s)); [eauto|apply IH].
Qed.

Lemma split_from_single_absent (c : N) (piece s : jsstring) :
  ~ In c s -> Str.split_from [c] 0 piece s = [rev piece ++ s].
Proof.
  revert piece. induction s as [|x s IH]; intros piece Hno.
  - cbn. rewrite app_nil_r. reflexivity.
  - cbn [Str.split_from]. rewrite startsWith_single.
    destruct (N.eqb_spec c x) as [->|Hne]; [exfalso; apply Hno; left; reflexivity|].
    rewrite IH; [|intros H; apply Hno; right; exact H].
    cbn. rewrite <- app_assoc. reflexivity.
Qed.

Lemma split_from_single_first (c : N) (piece a b : jsstring) :
  ~ In c a ->
  Str.split_from [c] 0 piece (a ++ c :: b)
  = (rev piece ++ a) :: Str.split_from [c] 0 [] b.
Proof.
  revert piece. induction a as [|x a IH]; intros piece Hno.
  - cbn [app Str.split_from]. rewrite startsWith_single, N.eqb_refl.
    cbn. rewrite app_nil_r. reflexivity.
  - cbn [app Str.split_from]. rewrite startsWith_single.
    destruct (N.eqb_spec c x) as [->|Hne]; [exfalso; apply Hno; left; reflexivity|].
    rewrite IH; [|intros H; apply Hno; right; exact H].
    cbn. rewrite <- app_assoc. reflexivity.
Qed.

Lemma split_single_absent (c : N) (s : jsstring) :
  ~ In c s -> Str.split [c] s = [s].
Proof. intros H. unfold Str.split. rewrite split_from_single_absent; auto. Qed.

Lemma split_single_first (c : N) (a b : jsstring) :
  ~ In c a -> Str.split [c] (a ++ c :: b) = a :: Str.split [c] b.
Proof. intros H. unfold Str.split. rewrite split_from_single_first; auto. Qed.

(** The first occurrence of a character that occurs. *)
Lemma first_occurrence (c : N) (s : jsstring) :
  In c s -> exists a b, s = a ++ c :: b /\ ~ In c a.
Proof.
  induction s as [|x s IH]; intros Hin; [destruct Hin|].
  destruct (N.eq_dec x c) as [->|Hne].
  - exists [], s. split; [reflexivity|]. intros [].
  - destruct Hin as [Heq|Hin]; [contradiction|].
    destruct (IH Hin) as (a & b & -> & Ha).
    exists (x :: a), b. split; [reflexivity|].
    intros [Hx|Hx]; [contradiction|]. apply Ha. exact Hx.
Qed.

(** Whether a second piece exists is whether the separator occurs. *)
Lemma split_single_second (c : N) (s : jsstring) :
  is_Some (Str.split [c] s !! 1%nat) <-> In c s.
Proof.
  split.
  - intros Hsome. destruct (in_dec N.eq_dec c s) as [Hin|Hno]; [exact Hin|].
    rewrite (split_single_absent _ _ Hno) in Hsome.
    destruct Hsome as [x Hx]. discriminate.
  - intros Hin. destruct (first_occurrence _ _ Hin) as (a & b & -> & Ha).
    rewrite (split_single_first _ _ _ Ha).
    destruct (split_from_nonempty [c] 0 [] b) as (p & ps & Hp).
    unfold Str.split. rewrite Hp. cbn. eauto.
Qed.

(** ** [trim] *)

Lemma trimStart_whitespace (lead s : jsstring) :
  allWhiteSpace lead -> Str.trimStart (lead ++ s) = Str.trimStart s.
Proof.
  induction 1 as [|c lead Hc _ IH]; cbn; [reflexivity|].
  rewrite Hc. exact IH.
Qed.

Lemma trimStart_clean (s : jsstring) : startsClean s = true -> Str.trimStart s = s.
Proof.
  destruct s as [|c s]; cbn; [reflexivity|].
  intros H. apply negb_true_iff in H. rewrite H. reflexivity.
Qed.

Lemma trimStart_decompose (s : jsstring) :
  exists lead, s = lead ++ Str.trimStart s /\ allWhiteSpace lead /\
               startsClean (Str.trimStart s) = true.
Proof.
  induction s as [|c s (lead & Heq & Hlead & Hclean)].
  - exists []. repeat split. constructor.
  - cbn [Str.trimStart]. destruct (Str.isWhiteSpace c) eqn:Hc.
    + exists (c :: lead). cbn. rewrite <- Heq. repeat split; [|exact Hclean].
      constructor; assumption.
    + exists []. cbn. rewrite Hc. repeat split. constructor.
Qed.

Lemma startsClean_app (a b : jsstring) :
  a <> [] -> startsClean (a ++ b) = startsClean a.
Proof. destruct a; [congruence|reflexivity]. Qed.

Lemma endsClean_app (a b : jsstring) :
  b <> [] -> endsClean (a ++ b) = endsClean b.
Proof.
  intros Hb. unfold endsClean. rewrite rev_app_distr.
  apply startsClean_app. intros H. apply Hb.
  rewrite <- (rev_involutive b), H. reflexivity.
Qed.

Lemma allWhiteSpace_rev (s : jsstring) : allWhiteSpace s -> allWhiteSpace (rev s).
Proof.
  unfold allWhiteSpace. rewrite !List.Forall_forall.
  intros H c Hc. apply H. apply in_rev. exact Hc.
Qed.

(** What [trim] leaves of a clean string wrapped in whitespace. *)
Lemma trim_sandwich (lead m trail : jsstring) :
  allWhiteSpace lead -> allWhiteSpace trail ->
  startsClean m = true -> endsClean m = true ->
  Str.trim (lead ++ m ++ trail) = m.
Proof.
  intros Hlead Htrail Hs He. unfold Str.trim, Str.trimEnd.
  rewrite (trimStart_whitespace _ _ Hlead).
  destruct m as [|c m].
  - cbn [app].
    assert (Hnil : forall t, allWhiteSpace t -> Str.trimStart t = []).
    { intros t Ht. rewrite <- (app_nil_r t).
      rewrite (trimStart_whitespace _ _ Ht). reflexivity. }
    rewrite (Hnil _ Htrail). reflexivity.
  - rewrite (trimStart_clean ((c :: m) ++ trail)) by exact Hs.
    rewrite rev_app_distr.
    rewrite (trimStart_whitespace _ _ (allWhiteSpace_rev _ Htrail)).
    rewrite (trimStart_clean _ He). apply rev_involutive.
Qed.

Lemma trim_decompose (s : jsstring) :
  exists lead trail,
    s = lead ++ Str.trim s ++ trail /\ allWhiteSpace lead /\ allWhiteSpace trail /\
    startsClean (Str.trim s) = true /\ endsClean (Str.trim s) = true.
Proof.
  destruct (trimStart_decompose s) as (lead & Hs & Hlead & Hclean).
  destruct (trimStart_decompose (rev (Str.trimStart s))) as (tl & Hr & Htl & Hcl).
  exists lead, (rev tl). unfold Str.trim, Str.trimEnd.
  assert (Hx : Str.trimStart s
               = rev (Str.trimStart (rev (Str.trimStart s))) ++ rev tl).
  { rewrite <- rev_app_distr, <- Hr, rev_involutive. reflexivity. }
  repeat split.
  - rewrite <- Hx. exact Hs.
  - exact Hlead.
  - apply allWhiteSpace_rev. exact Htl.
  - destruct (rev (Str.trimStart (rev (Str.trimStart s)))) as [|c r] eqn:Hrev;
      [reflexivity|].
    rewrite Hx in Hclean. exact Hclean.
  - unfold endsClean. rewrite rev_involutive. exact Hcl.
Qed.

Lemma trim_clean (s : jsstring) :
  startsClean s = true -> endsClean s = true -> Str.trim s = s.
Proof.
  intros Hs He.
  pose proof (trim_sandwich [] s [] ltac:(constructor) ltac:(constructor) Hs He) as H.
  cbn in H. rewrite app_nil_r in H. exact H.
Qed.

(** ** The matcher on the shapes of a vocabulary line *)

Import RegExp.

Lemma star_greedy_no_next (c : N) (cls : N -> bool) (k : continuation)
    (i : nat) (caps : gmap nat jsstring) (s : jsstring) :
  needsNext c k -> ~ In c s -> star_greedy cls i caps k s = None.
Proof.
  intros Hk. revert i. induction s as [|x s IH]; intros i Hno; cbn.
  - apply Hk. cbn. discriminate.
  - assert (Hhere : k (MState i (x :: s) caps) = None).
    { apply Hk. cbn. intros [= ->]. apply Hno. left. reflexivity. }
    destruct (cls x); [|exact Hhere].
    rewrite IH; [exact Hhere|]. intros H. apply Hno. right. exact H.
Qed.

Lemma star_greedy_blocked (k : continuation) (i : nat)
    (caps : gmap nat jsstring) (u v : jsstring) :
  needsNext LPAREN k -> ~ In LPAREN u -> u <> [] -> endsClean u = true ->
  star_greedy Str.isWhiteSpace i caps k (u ++ v) = None.
Proof.
  intros Hk. revert i. induction u as [|x u IH]; intros i Hno Hne Hend;
    [congruence|].
  cbn [app star_greedy].
  assert (Hhere : k (MState i (x :: u ++ v) caps) = None).
  { apply Hk. cbn. intros [= ->]. apply Hno. left. reflexivity. }
  destruct (Str.isWhiteSpace x) eqn:Hx; [|exact Hhere].
  destruct u as [|y u'].
  - unfold endsClean in Hend. cbn in Hend. rewrite Hx in Hend. discriminate.
  - rewrite IH; [exact Hhere| | |].
    + intros H. apply Hno. right. exact H.
    + discriminate.
    + change (x :: y :: u') with ([x] ++ (y :: u')) in Hend.
      rewrite endsClean_app in Hend by discriminate. exact Hend.
Qed.

Lemma star_greedy_all (k : continuation) (i : nat) (caps : gmap nat jsstring)
    (gap w : jsstring) :
  needsNext LPAREN k -> allWhiteSpace gap ->
  star_greedy Str.isWhiteSpace i caps k (gap ++ LPAREN :: w)
  = k (MState (i + List.length gap) (LPAREN :: w) caps).
Proof.
  intros Hk Hgap. revert i.
  induction Hgap as [|c gap Hc Hgap IH]; intros i.
  - cbn. rewrite Nat.add_0_r. reflexivity.
  - cbn [app star_greedy]. rewrite Hc, IH.
    replace (S i + List.length gap)%nat with (i + List.length (c :: gap))%nat
      by (cbn; lia).
    destruct (k (MState (i + List.length (c :: gap)) (LPAREN :: w) caps)) eqn:Hfin;
      [reflexivity|].
    apply Hk. cbn. intros [= ->]. discriminate.
Qed.

Lemma star_lazy_skip (cls : N -> bool) (k : continuation) (i : nat)
    (caps : gmap nat jsstring) (u v : jsstring) :
  Forall (fun c => cls c = true) u ->
  (forall u1 u2, u = u1 ++ u2 -> u2 <> [] ->
                 k (MState (i + List.length u1) (u2 ++ v) caps) = None) ->
  star_lazy cls i caps k (u ++ v)
  = star_lazy cls (i + List.length u) caps k v.
Proof.
  intros Hu. revert i. induction Hu as [|c u Hc Hu IH]; intros i Hfail.
  - cbn. rewrite Nat.add_0_r. reflexivity.
  - cbn [app star_lazy].
    pose proof (Hfail [] (c :: u) eq_refl ltac:(discriminate)) as H0.
    cbn in H0. rewrite Nat.add_0_r in H0. rewrite H0, Hc.
    rewrite IH.
    + f_equal. cbn. lia.
    + intros u1 u2 -> Hne.
      specialize (Hfail (c :: u1) u2 eq_refl Hne).
      cbn in Hfail. rewrite <- Hfail. f_equal. f_equal. lia.
Qed.


Lemma after_paren_needsNext (k : continuation) (r : regex) :
  needsNext LPAREN (fun y => run (Seq (Chr LPAREN) r) y k).
Proof.
  intros z Hz. cbn [run]. destruct (rest z) as [|c s]; [reflexivity|].
  destruct (N.eqb_spec LPAREN c) as [<-|Hne]; [|reflexivity].
  exfalso. apply Hz. reflexivity.
Qed.

Lemma run_parenthesized (z : mstate) (k : continuation) (gap orig : jsstring) :
  rest z = gap ++ LPAREN :: orig ++ [RPAREN] ->
  allWhiteSpace gap -> noLineBreak orig -> atEndOnly k ->
  run parenthesized z k
  = k (MState (endIndex z + List.length gap + 1 + List.length orig + 1) []
         (<[2%nat := orig]> (captures z))).
Proof.
  intros Hrest Hgap Horig Hk.
  unfold parenthesized. cbn [run]. rewrite Hrest.
  rewrite (star_greedy_all _ _ _ _ _
             (after_paren_needsNext k
                (Seq (Group 2 (StarLazy dot)) (Chr RPAREN))) Hgap).
  cbn [run rest endIndex captures]. rewrite N.eqb_refl.
  rewrite star_lazy_skip.
  - cbn [star_lazy rest endIndex captures]. rewrite N.eqb_refl.
    replace (endIndex z + List.length gap + 1 + List.length orig + 1)%nat
      with (S (S (endIndex z + List.length gap) + List.length orig)) by lia.
    replace (S (endIndex z + List.length gap) + List.length orig
             - S (endIndex z + List.length gap))%nat
      with (List.length orig) by lia.
    rewrite take_app_length.
    destruct (k _); reflexivity.
  - exact Horig.
  - intros u1 u2 -> Hne. destruct u2 as [|c u2]; [congruence|].
    cbn [app rest endIndex captures].
    destruct (RPAREN =? c); [|reflexivity].
    apply Hk. cbn. destruct u2; discriminate.
Qed.

(** The equations of [run] on the part of the pattern after the first group. *)

Lemma run_afterBase (z : mstate) :
  run afterBase z Some
  = match run parenthesized
            (MState (endIndex z) (rest z) (delete 2%nat (captures z)))
            (fun y => if Nat.eqb (endIndex y) (endIndex z) then None
                      else match rest y with [] => Some y | _ :: _ => None end) with
    | Some r => Some r
    | None => match rest z with [] => Some z | _ :: _ => None end
    end.
Proof. reflexivity. Qed.

Lemma run_parenthesized_needs (z : mstate) (k : continuation) :
  run parenthesized z k
  = star_greedy Str.isWhiteSpace (endIndex z) (captures z)
      (fun y => run (Seq (Chr LPAREN)
                       (Seq (Group 2 (StarLazy dot)) (Chr RPAREN))) y k)
      (rest z).
Proof. reflexivity. Qed.

Lemma afterBase_no_paren (z : mstate) :
  rest z <> [] -> ~ In LPAREN (rest z) -> run afterBase z Some = None.
Proof.
  intros Hne Hno. rewrite run_afterBase, run_parenthesized_needs.
  cbn [rest endIndex captures].
  rewrite (star_greedy_no_next LPAREN); [|apply after_paren_needsNext|exact Hno].
  destruct (rest z); [congruence|reflexivity].
Qed.

Lemma afterBase_blocked (z : mstate) (u v : jsstring) :
  rest z = u ++ v -> u <> [] -> ~ In LPAREN u -> endsClean u = true ->
  run afterBase z Some = None.
Proof.
  intros Hrest Hne Hno Hend. rewrite run_afterBase, run_parenthesized_needs.
  cbn [rest endIndex captures]. rewrite Hrest.
  rewrite star_greedy_blocked;
    [|apply after_paren_needsNext|exact Hno|exact Hne|exact Hend].
  destruct u; [congruence|reflexivity].
Qed.

Lemma afterBase_at_end (z : mstate) :
  rest z = [] -> run afterBase z Some = Some z.
Proof.
  intros Hrest. rewrite run_afterBase, run_parenthesized_needs.
  cbn [rest endIndex captures]. rewrite Hrest. reflexivity.
Qed.

Lemma afterBase_parenthesized (z : mstate) (gap orig : jsstring) :
  rest z = gap ++ LPAREN :: orig ++ [RPAREN] ->
  allWhiteSpace gap -> noLineBreak orig ->
  run afterBase z Some
  = Some (MState (endIndex z + List.length gap + 1 + List.length orig + 1) []
            (<[2%nat := orig]> (delete 2%nat (captures z)))).
Proof.
  intros Hrest Hgap Horig. rewrite run_afterBase.
  rewrite (run_parenthesized _ _ gap orig); [| exact Hrest | exact Hgap | exact Horig |].
  - cbn [rest endIndex captures].
    destruct (Nat.eqb_spec
                (endIndex z + List.length gap + 1 + List.length orig + 1)
                (endIndex z)) as [Heq|_]; [lia|reflexivity].
  - intros y Hy. destruct (Nat.eqb _ _); [reflexivity|].
    destruct (rest y); [congruence|reflexivity].
Qed.

Lemma run_vocabulary_pattern (s : jsstring) :
  run vocabulary_pattern (MState 0 s ∅) Some
  = star_lazy dot 0 ∅
      (fun y => run afterBase
                  (MState (endIndex y) (rest y)
                     (<[1%nat := firstn (endIndex y - 0) s]> (captures y)))
                  Some)
      s.
Proof. reflexivity. Qed.

Lemma exec_first (r : regex) (s : jsstring) (m : mstate) :
  run r (MState 0 s ∅) Some = Some m -> exec r s = Some m.
Proof.
  intros H. unfold exec. destruct s; cbn [exec_at]; rewrite H; reflexivity.
Qed.

(** A word without an opening parenthesis and without line break: the first
    group takes all of it and the second takes no part. *)
Lemma exec_plain (w : jsstring) :
  ~ In LPAREN w -> noLineBreak w ->
  exists m, exec vocabulary_pattern w = Some m /\
            group m 1 = Some w /\ group m 2 = None.
Proof.
  intros Hno Hdot.
  exists (MState (List.length w) [] (<[1%nat := w]> ∅)).
  split; [|split; reflexivity].
  apply exec_first. rewrite run_vocabulary_pattern.
  match goal with |- star_lazy _ _ _ ?K _ = _ => set (k := K) end.
  pose proof (star_lazy_skip dot k 0 ∅ w [] Hdot) as Hskip.
  rewrite app_nil_r in Hskip. rewrite Hskip.
  - cbn [star_lazy Nat.add]. unfold k. cbn [endIndex rest captures].
    rewrite afterBase_at_end by reflexivity.
    rewrite Nat.sub_0_r, firstn_all. reflexivity.
  - intros u1 u2 -> Hne. unfold k. cbn [endIndex rest captures].
    apply afterBase_no_paren; cbn [rest]; rewrite app_nil_r.
    + exact Hne.
    + intros H. apply Hno. apply in_or_app. right. exact H.
Qed.

(** [base], whitespace, and a parenthesized [orig]: the first group takes
    [base] and the second [orig]. *)
Lemma exec_parenthesized (base gap orig : jsstring) :
  ~ In LPAREN base -> noLineBreak base -> endsClean base = true ->
  allWhiteSpace gap -> noLineBreak orig ->
  exists m, exec vocabulary_pattern (base ++ gap ++ LPAREN :: orig ++ [RPAREN])
            = Some m /\
            group m 1 = Some base /\ group m 2 = Some orig.
Proof.
  intros Hno Hdot Hend Hgap Horig.
  set (s := base ++ gap ++ LPAREN :: orig ++ [RPAREN]).
  exists (MState (List.length base + List.length gap + 1 + List.length orig + 1) []
            (<[2%nat := orig]> (delete 2%nat (<[1%nat := base]> ∅)))).
  split; [|split; reflexivity].
  apply exec_first. rewrite run_vocabulary_pattern.
  unfold s at 2. rewrite star_lazy_skip; [|exact Hdot|].
  - cbn [Nat.add].
    assert (Hhere :
      run afterBase
        (MState (List.length base) (gap ++ LPAREN :: orig ++ [RPAREN])
           (<[1%nat := firstn (List.length base - 0) s]> ∅)) Some
      = Some (MState (List.length base + List.length gap + 1 + List.length orig + 1) []
                (<[2%nat := orig]> (delete 2%nat (<[1%nat := base]> ∅))))).
    { rewrite (afterBase_parenthesized _ gap orig); [|reflexivity|exact Hgap|exact Horig].
      cbn [endIndex captures]. unfold s.
      rewrite Nat.sub_0_r, take_app_length. reflexivity. }
    destruct (gap ++ LPAREN :: orig ++ [RPAREN]) eqn:Htail;
      cbn [star_lazy endIndex rest captures]; rewrite Hhere; reflexivity.
  - intros u1 u2 -> Hne. cbn [endIndex rest captures].
    apply (afterBase_blocked _ u2 (gap ++ LPAREN :: orig ++ [RPAREN]));
      [reflexivity|exact Hne| |].
    + intros H. apply Hno. apply in_or_app. right. exact H.
    + rewrite endsClean_app in Hend by exact Hne. exact Hend.
Qed.

(** Whatever a match returns was returned by its continuation, and a capture
    of a group that the rest of the pattern does not contain stays. *)
Lemma star_lazy_returns (P : mstate -> Prop) (cls : N -> bool) (k : continuation)
    (caps : gmap nat jsstring) (s : jsstring) (i : nat) (res : mstate) :
  (forall j s', k (MState j s' caps) = Some res -> P res) ->
  star_lazy cls i caps k s = Some res -> P res.
Proof.
  intros Hk. revert i. induction s as [|c s IH]; intros i; cbn.
  - destruct (k (MState i [] caps)) eqn:Hhere; [|discriminate].
    intros [= <-]. eapply Hk. exact Hhere.
  - destruct (k (MState i (c :: s) caps)) eqn:Hhere.
    + intros [= <-]. eapply Hk. exact Hhere.
    + destruct (cls c); [apply IH|discriminate].
Qed.

Lemma star_greedy_returns (P : mstate -> Prop) (cls : N -> bool) (k : continuation)
    (caps : gmap nat jsstring) (s : jsstring) (i : nat) (res : mstate) :
  (forall j s', k (MState j s' caps) = Some res -> P res) ->
  star_greedy cls i caps k s = Some res -> P res.
Proof.
  intros Hk. revert i. induction s as [|c s IH]; intros i; cbn.
  - apply Hk.
  - destruct (cls c); [|apply Hk].
    destruct (star_greedy cls (S i) caps k s) eqn:Hmore.
    + intros [= <-]. eapply IH. exact Hmore.
    + apply Hk.
Qed.

Lemma run_keeps_capture (g : nat) (P : mstate -> Prop) (r : regex) :
  ~ In g (groups r) ->
  forall (x : mstate) (k : continuation) (res : mstate),
    is_Some (captures x !! g) ->
    (forall z, is_Some (captures z !! g) -> k z = Some res -> P res) ->
    run r x k = Some res -> P res.
Proof.
  induction r as [| | c | cls | cls | r1 IH1 r2 IH2 | r IH | i r IH];
    intros Hg x k res Hx Hk; cbn [run].
  - destruct (Nat.eqb _ _); [apply Hk; exact Hx|discriminate].
  - destruct (rest x); [apply Hk; exact Hx|discriminate].
  - destruct (rest x) as [|c' s']; [discriminate|].
    destruct (c =? c'); [|discriminate]. apply Hk. exact Hx.
  - apply star_lazy_returns. intros j s'. apply Hk. exact Hx.
  - apply star_greedy_returns. intros j s'. apply Hk. exact Hx.
  - cbn [groups] in Hg. apply IH1; [| exact Hx |].
    + intros H. apply Hg. apply in_or_app. left. exact H.
    + intros z Hz. apply IH2; [| exact Hz | exact Hk].
      intros H. apply Hg. apply in_or_app. right. exact H.
  - cbn [groups] in Hg.
    destruct (run r _ _) eqn:Hone.
    + intros [= <-]. revert Hone. apply IH; [exact Hg | |].
      * cbn [captures]. clear -Hx Hg.
        induction (groups r) as [|j js IHjs]; cbn; [exact Hx|].
        rewrite lookup_delete_ne.
        -- apply IHjs. intros H. apply Hg. right. exact H.
        -- intros ->. apply Hg. left. reflexivity.
      * intros z Hz. destruct (Nat.eqb _ _); [discriminate|]. apply Hk. exact Hz.
    + apply Hk. exact Hx.
  - cbn [groups] in Hg. apply IH; [| exact Hx |].
    + intros H. apply Hg. right. exact H.
    + intros z Hz. apply Hk. cbn [captures].
      rewrite lookup_insert_ne; [exact Hz|].
      intros ->. apply Hg. left. reflexivity.
Qed.

Lemma run_defines_base (i : nat) (s : jsstring) (m : mstate) :
  run vocabulary_pattern (MState i s ∅) Some = Some m -> is_Some (group m 1).
Proof.
  change (run vocabulary_pattern (MState i s ∅) Some)
    with (if Nat.eqb i 0
          then star_lazy dot i ∅
                 (fun y => run afterBase
                             (MState (endIndex y) (rest y)
                                (<[1%nat := firstn (endIndex y - i) s]> (captures y)))
                             Some) s
          else None).
  destruct (Nat.eqb i 0); [|discriminate].
  apply (star_lazy_returns (fun m => is_Some (group m 1))). intros j s'.
  apply (run_keeps_capture 1 (fun m => is_Some (group m 1)) afterBase).
  - cbn. intros [H|[]]. discriminate.
  - cbn [captures]. rewrite lookup_insert_eq. eauto.
  - intros z Hz [= <-]. exact Hz.
Qed.

Lemma exec_at_defines_base (s : jsstring) (i : nat) (m : mstate) :
  exec_at vocabulary_pattern i s = Some m -> is_Some (group m 1).
Proof.
  revert i. induction s as [|c s IH]; intros i; cbn [exec_at].
  - destruct (run _ _ _) eqn:Hr; [|discriminate].
    intros [= <-]. eapply run_defines_base. exact Hr.
  - destruct (run _ _ _) eqn:Hr.
    + intros [= <-]. eapply run_defines_base. exact Hr.
    + apply IH.
Qed.

(** Every match of the pattern defines the first group. *)
Lemma exec_defines_base (s : jsstring) (m : mstate) :
  exec vocabulary_pattern s = Some m -> is_Some (group m 1).
Proof. apply exec_at_defines_base. Qed.


(** What a star consumed when the match went on: a run of the class, and the
    continuation succeeded after it. *)
Lemma star_lazy_consumed (cls : N -> bool) (k : continuation)
    (caps : gmap nat jsstring) (s : jsstring) (i : nat) (res : mstate) :
  star_lazy cls i caps k s = Some res ->
  exists u v, s = u ++ v /\ Forall (fun c => cls c = true) u /\
              k (MState (i + List.length u) v caps) = Some res.
Proof.
  revert i. induction s as [|c s IH]; intros i; cbn [star_lazy].
  - destruct (k (MState i [] caps)) eqn:Hhere; [|discriminate].
    intros [= <-]. exists [], []. rewrite Nat.add_0_r.
    split; [reflexivity|]. split; [constructor|exact Hhere].
  - destruct (k (MState i (c :: s) caps)) eqn:Hhere.
    + intros [= <-]. exists [], (c :: s). rewrite Nat.add_0_r.
      split; [reflexivity|]. split; [constructor|exact Hhere].
    + destruct (cls c) eqn:Hc; [|discriminate]. intros Hmore.
      destruct (IH _ Hmore) as (u & v & -> & Hu & Hk).
      exists (c :: u), v. split; [reflexivity|]. split; [constructor; assumption|].
      rewrite <- Hk. f_equal. f_equal. cbn. lia.
Qed.

Lemma star_greedy_consumed (cls : N -> bool) (k : continuation)
    (caps : gmap nat jsstring) (s : jsstring) (i : nat) (res : mstate) :
  star_greedy cls i caps k s = Some res ->
  exists u v, s = u ++ v /\ Forall (fun c => cls c = true) u /\
              k (MState (i + List.length u) v caps) = Some res.
Proof.
  assert (Hhere : forall i s, k (MState i s caps) = Some res ->
            exists u v, s = u ++ v /\ Forall (fun c => cls c = true) u /\
                        k (MState (i + List.length u) v caps) = Some res).
  { intros j s' H. exists [], s'. rewrite Nat.add_0_r.
    split; [reflexivity|]. split; [constructor|exact H]. }
  revert i. induction s as [|c s IH]; intros i; cbn [star_greedy];
    [apply Hhere|].
  destruct (cls c) eqn:Hc; [|apply Hhere].
  destruct (star_greedy cls (S i) caps k s) eqn:Hmore; [|apply Hhere].
  intros [= <-]. destruct (IH _ Hmore) as (u & v & -> & Hu & Hk).
  exists (c :: u), v. split; [reflexivity|]. split; [constructor; assumption|].
  rewrite <- Hk. f_equal. f_equal. cbn. lia.
Qed.

(** A match of the optional part: whitespace, and a text in parentheses. *)
Lemma run_parenthesized_consumed (z : mstate) (k : continuation) (res : mstate) :
  run parenthesized z k = Some res ->
  exists gap form tail (j : nat),
    rest z = gap ++ LPAREN :: form ++ RPAREN :: tail /\
    allWhiteSpace gap /\ noLineBreak form /\
    k (MState j tail (<[2%nat := form]> (captures z))) = Some res.
Proof.
  rewrite run_parenthesized_needs. intros Hrun.
  destruct (star_greedy_consumed _ _ _ _ _ _ Hrun) as (gap & v & Hrest & Hgap & Hk).
  cbn [run rest endIndex captures] in Hk.
  destruct v as [|c v]; [discriminate|].
  destruct (N.eqb_spec LPAREN c) as [<-|_]; [|discriminate].
  destruct (star_lazy_consumed _ _ _ _ _ _ Hk) as (form & w & -> & Hform & Hk2).
  cbn [rest endIndex captures] in Hk2.
  destruct w as [|c w]; [discriminate|].
  destruct (N.eqb_spec RPAREN c) as [<-|_]; [|discriminate].
  exists gap, form, w. eexists.
  split; [exact Hrest|]. split; [exact Hgap|]. split; [exact Hform|].
  rewrite <- Hk2. f_equal. f_equal. f_equal.
  replace (S (endIndex z + List.length gap) + List.length form
           - S (endIndex z + List.length gap))%nat
    with (List.length form) by lia.
  rewrite take_app_length. reflexivity.
Qed.

(** The start index of a match of the pattern is 0. *)
Lemma exec_at_later (i : nat) (s : jsstring) :
  exec_at vocabulary_pattern (S i) s = None.
Proof.
  revert i. induction s as [|c s IH]; intros i; cbn [exec_at]; [reflexivity|].
  change (run vocabulary_pattern (MState (S i) (c :: s) ∅) Some) with (@None mstate).
  apply IH.
Qed.

Lemma exec_from_start (s : jsstring) (m : mstate) :
  exec vocabulary_pattern s = Some m ->
  run vocabulary_pattern (MState 0 s ∅) Some = Some m.
Proof.
  unfold exec. destruct s as [|c s]; cbn [exec_at].
  - destruct (run _ _ _); [tauto|discriminate].
  - destruct (run _ _ _); [tauto|]. rewrite exec_at_later. discriminate.
Qed.

(** What a match says of the string: the first group is a prefix; either
    it is the whole string and the second group took no part, or whitespace
    and the second group in parentheses follow it to the end. *)
Lemma exec_consumed (s : jsstring) (m : mstate) :
  exec vocabulary_pattern s = Some m ->
  exists base,
    group m 1 = Some base /\
    ((group m 2 = None /\ s = base) \/
     exists gap form,
       group m 2 = Some form /\ allWhiteSpace gap /\
       s = base ++ gap ++ LPAREN :: form ++ [RPAREN]).
Proof.
  intros Hexec. apply exec_from_start in Hexec.
  rewrite run_vocabulary_pattern in Hexec.
  destruct (star_lazy_consumed _ _ _ _ _ _ Hexec) as (base & v & Hs & _ & Hk).
  cbn [endIndex rest captures Nat.add] in Hk.
  rewrite Nat.sub_0_r, Hs, take_app_length in Hk.
  exists base. rewrite run_afterBase in Hk. cbn [endIndex rest captures] in Hk.
  destruct (run parenthesized _ _) as [r|] eqn:Hparen.
  - injection Hk as ->.
    destruct (run_parenthesized_consumed _ _ _ Hparen)
      as (gap & form & tail & j & Hrest & Hgap & _ & Hend).
    cbn [rest endIndex captures] in Hrest, Hend.
    destruct (Nat.eqb j (List.length base)); [discriminate|].
    destruct tail as [|c tail]; [|discriminate].
    injection Hend as <-. unfold group. cbn [captures].
    split.
    + rewrite lookup_insert_ne by discriminate.
      rewrite lookup_delete_ne by discriminate. apply lookup_insert_eq.
    + right. exists gap, form. split; [apply lookup_insert_eq|].
      split; [exact Hgap|]. rewrite Hs, Hrest. reflexivity.
  - destruct v as [|c v]; [|discriminate]. injection Hk as <-.
    unfold group. cbn [captures]. split; [apply lookup_insert_eq|].
    left. split; [reflexivity|]. rewrite Hs. apply app_nil_r.
Qed.

Lemma star_lazy_reaches_end (cls : N -> bool) (k : continuation)
    (caps : gmap nat jsstring) (s : jsstring) (i : nat) :
  Forall (fun c => cls c = true) s ->
  is_Some (k (MState (i + List.length s) [] caps)) ->
  is_Some (star_lazy cls i caps k s).
Proof.
  intros Hs. revert i. induction Hs as [|c s Hc Hs IH]; intros i Hend.
  - cbn in *. rewrite Nat.add_0_r in Hend. destruct Hend as [r ->]. cbn. eauto.
  - cbn [star_lazy]. destruct (k (MState i (c :: s) caps)); [eauto|].
    rewrite Hc. apply IH.
    replace (S i + List.length s)%nat with (i + List.length (c :: s))%nat
      by (cbn; lia).
    exact Hend.
Qed.

(** The pattern matches every string without line terminator. *)
Lemma exec_without_line_break (s : jsstring) :
  noLineBreak s -> is_Some (exec vocabulary_pattern s).
Proof.
  intros Hs.
  assert (Hrun : is_Some (run vocabulary_pattern (MState 0 s ∅) Some)).
  { rewrite run_vocabulary_pattern. apply star_lazy_reaches_end; [exact Hs|].
    rewrite afterBase_at_end by reflexivity. eauto. }
  destruct Hrun as [m Hm]. rewrite (exec_first _ _ _ Hm). eauto.
Qed.

(** A string ends with whitespace that can be cut off. *)
Lemma trailing_whitespace (s : jsstring) :
  exists base gap, s = base ++ gap /\ endsClean base = true /\ allWhiteSpace gap.
Proof.
  destruct (trimStart_decompose (rev s)) as (lead & Hs & Hlead & Hclean).
  exists (rev (Str.trimStart (rev s))), (rev lead). split; [|split].
  - rewrite <- rev_app_distr, <- Hs. symmetry. apply rev_involutive.
  - unfold endsClean. rewrite rev_involutive. exact Hclean.
  - apply allWhiteSpace_rev. exact Hlead.
Qed.

(** The match of a string without line terminator, by its shape: with an
    opening parenthesis and a closing one at the end, the first group is the
    text before the first opening parenthesis, without the whitespace at its
    end, and the second is the text between that parenthesis and the last
    one; otherwise the first group is the whole string. *)
Lemma exec_by_shape (s : jsstring) :
  noLineBreak s ->
  exists m base,
    exec vocabulary_pattern s = Some m /\ group m 1 = Some base /\
    ((exists gap form,
         s = base ++ gap ++ LPAREN :: form ++ [RPAREN] /\
         ~ In LPAREN base /\ endsClean base = true /\ allWhiteSpace gap /\
         group m 2 = Some form) \/
     ((~ In LPAREN s \/ last s <> Some RPAREN) /\
      base = s /\ group m 2 = None)).
Proof.
  intros Hs.
  destruct (in_dec N.eq_dec LPAREN s) as [Hin|Hno].
  - destruct (decide (last s = Some RPAREN)) as [Hlast|Hlast].
    + destruct (first_occurrence _ _ Hin) as (pre & after & Hpre & Hfirst).
      assert (Hform : exists form, after = form ++ [RPAREN]).
      { rewrite Hpre, last_app_cons in Hlast.
        destruct after as [|x after']; [discriminate|].
        change (LPAREN :: x :: after') with ([LPAREN] ++ x :: after') in Hlast.
        rewrite last_app_cons in Hlast. apply last_Some in Hlast. exact Hlast. }
      destruct Hform as [form ->].
      destruct (trailing_whitespace pre) as (base & gap & -> & Hend & Hgap).
      assert (Hparts : noLineBreak base /\ noLineBreak form).
      { rewrite Hpre in Hs. unfold noLineBreak in *.
        rewrite <- app_assoc in Hs.
        apply Forall_app in Hs. destruct Hs as [Hb Hs].
        apply Forall_app in Hs. destruct Hs as [_ Hs].
        inversion Hs as [|? ? _ Hs']; subst.
        apply Forall_app in Hs'. destruct Hs' as [Hf _]. split; assumption. }
      destruct Hparts as [Hdb Hdf].
      assert (Hnb : ~ In LPAREN base)
        by (intros H; apply Hfirst; apply in_or_app; left; exact H).
      destruct (exec_parenthesized base gap form Hnb Hdb Hend Hgap Hdf)
        as (m & Hm & H1 & H2).
      exists m, base. rewrite Hpre, <- app_assoc.
      split; [exact Hm|]. split; [exact H1|]. left. exists gap, form.
      repeat split; assumption.
    + destruct (exec_without_line_break s Hs) as [m Hm].
      destruct (exec_consumed s m Hm) as (base & H1 & [[H2 ->]|Hshape]).
      * exists m, base. split; [exact Hm|]. split; [exact H1|].
        right. split; [right; exact Hlast|]. split; [reflexivity|exact H2].
      * exfalso. destruct Hshape as (gap & form & _ & _ & ->). apply Hlast.
        rewrite app_assoc, last_app_cons.
        change (LPAREN :: form ++ [RPAREN]) with ((LPAREN :: form) ++ [RPAREN]).
        apply last_snoc.
  - destruct (exec_plain s Hno Hs) as (m & Hm & H1 & H2).
    exists m, s. split; [exact Hm|]. split; [exact H1|].
    right. split; [left; exact Hno|]. split; [reflexivity|exact H2].
Qed.

(** ** Vocabulary lines *)

Lemma map_lookup_head {A B} (f : A -> B) (l : list A) :
  List.map f l !! 0%nat = f <$> l !! 0%nat.
Proof. destruct l; reflexivity. Qed.

(** The callback once the line is split. *)
Lemma parseVocabularyLine_pieces (line p : jsstring) (ps : list jsstring) :
  Str.split [SEMI] line = p :: ps ->
  parseVocabularyLine line
  = match exec vocabulary_pattern (Str.trim p) with
    | Some m =>
        Ok (Entry (or_else (group m 2) (group m 1))
              (Str.trim <$> ps !! 0%nat) (group m 1) None)
    | None => Ok (Entry (Some (Str.trim p)) (Str.trim <$> ps !! 0%nat) None None)
    end.
Proof.
  intros Hsplit. unfold parseVocabularyLine. rewrite Hsplit.
  cbn [List.map lookup list_lookup].
  rewrite <- map_lookup_head. reflexivity.
Qed.

Lemma or_else_defined (a b : option jsstring) : is_Some b -> is_Some (or_else a b).
Proof. intros Hb. destruct a as [[|c s]|]; cbn; eauto. Qed.

(** The callback never throws; [original] is always set, [translated]
    exactly when the line has a semicolon. *)
Lemma parseVocabularyLine_total (line : jsstring) :
  exists e, parseVocabularyLine line = Ok e /\
            is_Some (original e) /\
            (is_Some (translated e) <-> In SEMI line).
Proof.
  destruct (split_from_nonempty [SEMI] 0 [] line) as (p & ps & Hsplit).
  fold (Str.split [SEMI] line) in Hsplit.
  assert (Hsecond : is_Some (Str.trim <$> ps !! 0%nat) <-> In SEMI line).
  { rewrite <- split_single_second, Hsplit. cbn [lookup list_lookup].
    rewrite fmap_is_Some. reflexivity. }
  rewrite (parseVocabularyLine_pieces _ _ _ Hsplit).
  destruct (exec vocabulary_pattern (Str.trim p)) as [m|] eqn:Hexec.
  - eexists. split; [reflexivity|]. cbn [original translated]. split.
    + apply or_else_defined. eapply exec_defines_base. exact Hexec.
    + exact Hsecond.
  - eexists. split; [reflexivity|]. cbn [original translated]. split; eauto.
Qed.

(** A line of the text and the entry made of it. *)
Lemma parseVocabulary_total (wordList : jsstring) :
  exists entries, parseVocabulary wordList = Ok entries.
Proof.
  apply map_throwing_total. intros line _.
  destruct (parseVocabularyLine_total line) as (e & He & _). eauto.
Qed.

Lemma parseVocabulary_line (wordList : jsstring) (i : nat) (line : jsstring) (e : entry) :
  vocabularyLines wordList !! i = Some line ->
  parseVocabularyLine line = Ok e ->
  exists entries, parseVocabulary wordList = Ok entries /\ entries !! i = Some e.
Proof.
  intros Hline He.
  destruct (parseVocabulary_total wordList) as [entries Hentries].
  exists entries. split; [exact Hentries|].
  destruct (map_throwing_lookup _ _ _ Hentries) as [_ Hlook].
  destruct (Hlook i line Hline) as (b & Hb & Hi). congruence.
Qed.

(** C1 (as amended).  The vocabulary parse never fails and drops no line:
    it returns one entry for each trimmed non-empty line, in order, also for
    a line without a semicolon.  Each entry has [original]; it has
    [translated] exactly when its line contains a semicolon.  The three
    lines "a;b", "cccc", "d;e" give three entries. *)
Theorem parseVocabulary_keeps_every_line (wordList : jsstring) :
  exists entries,
    parseVocabulary wordList = Ok entries /\
    List.length entries = List.length (vocabularyLines wordList) /\
    (forall (i : nat) line,
        vocabularyLines wordList !! i = Some line ->
        exists e, entries !! i = Some e /\
                  is_Some (original e) /\
                  (is_Some (translated e) <-> In SEMI line)) /\
    parseVocabulary three_lines
    = Ok [ Entry (Some (lit "a")) (Some (lit "b")) (Some (lit "a")) None;
           Entry (Some (lit "cccc")) None (Some (lit "cccc")) None;
           Entry (Some (lit "d")) (Some (lit "e")) (Some (lit "d")) None ].
Proof.
  destruct (parseVocabulary_total wordList) as [entries Hentries].
  exists entries. split; [exact Hentries|].
  destruct (map_throwing_lookup _ _ _ Hentries) as [Hlen Hlook].
  split; [exact Hlen|]. split; [|vm_compute; reflexivity].
  intros i line Hline.
  destruct (Hlook i line Hline) as (e & He & Hi).
  destruct (parseVocabularyLine_total line) as (e' & He' & Horig & Htrans).
  exists e. split; [exact Hi|].
  assert (e' = e) as <- by congruence. split; assumption.
Qed.

Lemma parseVocabulary_keeps_every_line_witness :
  exists entries,
    parseVocabulary three_lines = Ok entries /\ List.length entries = 3%nat.
Proof.
  destruct (parseVocabulary_keeps_every_line three_lines)
    as (entries & Hentries & Hlen & _).
  exists entries. split; [exact Hentries|]. rewrite Hlen. reflexivity.
Defined.

(** C1 as stated fails: the line without a semicolon is not dropped, the
    example yields three entries and the second has no [translated]. *)
Lemma line_without_semicolon_is_kept :
  exists entries e,
    parseVocabulary three_lines = Ok entries /\
    List.length entries = 3%nat /\ List.length entries <> 2%nat /\
    entries !! 1%nat = Some e /\ original e = Some (lit "cccc") /\
    translated e = None.
Proof.
  eexists. eexists. split; [vm_compute; reflexivity|].
  repeat split. discriminate.
Qed.

Lemma trim_part (c : N) (s : jsstring) : In c (Str.trim s) -> In c s.
Proof.
  destruct (trim_decompose s) as (lead & trail & Hs & _).
  intros H. rewrite Hs. apply in_or_app. right. apply in_or_app. left. exact H.
Qed.

(** What [trim] makes of [base (orig)]: the trimmed base, some whitespace,
    and the parenthesized part. *)
Lemma trim_before_paren (base orig : jsstring) :
  exists gap,
    allWhiteSpace gap /\
    Str.trim (base ++ lit " (" ++ orig ++ lit ")")
    = Str.trim base ++ gap ++ LPAREN :: orig ++ [RPAREN].
Proof.
  change (lit " (") with [32; LPAREN]. change (lit ")") with [RPAREN].
  destruct (trim_decompose base) as (lead & trail & Hb & Hlead & Htrail & Hs & He).
  assert (Hparen : endsClean (LPAREN :: orig ++ [RPAREN]) = true).
  { change (LPAREN :: orig ++ [RPAREN]) with ((LPAREN :: orig) ++ [RPAREN]).
    rewrite endsClean_app by discriminate. reflexivity. }
  assert (Hspace : allWhiteSpace [32]) by (repeat constructor).
  remember (Str.trim base) as b eqn:Heqb. clear Heqb.
  destruct b as [|c b].
  - exists []. split; [constructor|]. subst base.
    assert (Heq : (lead ++ [] ++ trail) ++ [32; LPAREN] ++ orig ++ [RPAREN]
                  = (lead ++ trail ++ [32]) ++ (LPAREN :: orig ++ [RPAREN]) ++ [])
      by (cbn [app]; rewrite app_nil_r, <- !app_assoc; reflexivity).
    rewrite Heq.
    refine (trim_sandwich (lead ++ trail ++ [32]) (LPAREN :: orig ++ [RPAREN]) []
              _ ltac:(constructor) eq_refl Hparen).
    apply Forall_app. split; [exact Hlead|].
    apply Forall_app. split; [exact Htrail|exact Hspace].
  - exists (trail ++ [32]). split.
    + apply Forall_app. split; [exact Htrail|exact Hspace].
    + subst base.
      assert (Heq : (lead ++ (c :: b) ++ trail) ++ [32; LPAREN] ++ orig ++ [RPAREN]
                    = lead ++ ((c :: b) ++ (trail ++ [32]) ++ LPAREN :: orig ++ [RPAREN]) ++ [])
        by (rewrite app_nil_r, <- !app_assoc; reflexivity).
      rewrite Heq.
      refine (trim_sandwich lead
                ((c :: b) ++ (trail ++ [32]) ++ LPAREN :: orig ++ [RPAREN]) []
                Hlead ltac:(constructor) _ _).
      * rewrite startsClean_app by discriminate. exact Hs.
      * rewrite app_assoc, endsClean_app by discriminate. exact Hparen.
Qed.

Lemma parseVocabularyLine_parenthesized (base orig translation : jsstring) :
  ~ In SEMI base -> ~ In SEMI orig -> ~ In SEMI translation ->
  ~ In LPAREN base -> noLineBreak (Str.trim base) ->
  noLineBreak orig ->
  parseVocabularyLine (base ++ lit " (" ++ orig ++ lit ");" ++ translation)
  = Ok (Entry (Some (match orig with [] => Str.trim base | _ :: _ => orig end))
          (Some (Str.trim translation)) (Some (Str.trim base)) None).
Proof.
  intros Hsb Hso Hst Hpb Hdb Hdo.
  replace (base ++ lit " (" ++ orig ++ lit ");" ++ translation)
    with ((base ++ lit " (" ++ orig ++ lit ")") ++ SEMI :: translation)
    by (change (lit ");") with (lit ")" ++ [SEMI]);
        rewrite <- !app_assoc; reflexivity).
  assert (Hlhs : ~ In SEMI (base ++ lit " (" ++ orig ++ lit ")")).
  { rewrite !in_app_iff. intros [H|[H|[H|H]]]; try contradiction.
    - vm_compute in H. intuition discriminate.
    - vm_compute in H. intuition discriminate. }
  rewrite (parseVocabularyLine_pieces _ (base ++ lit " (" ++ orig ++ lit ")")
             [translation]).
  - destruct (trim_before_paren base orig) as (gap & Hgap & ->).
    destruct (exec_parenthesized (Str.trim base) gap orig) as (m & -> & -> & ->).
    + intros H. apply Hpb. eapply trim_part. exact H.
    + exact Hdb.
    + destruct (trim_decompose base) as (? & ? & _ & _ & _ & _ & He). exact He.
    + exact Hgap.
    + exact Hdo.
    + destruct orig; reflexivity.
  - rewrite (split_single_first _ _ _ Hlhs), (split_single_absent _ _ Hst).
    reflexivity.
Qed.

Lemma parseVocabularyLine_plain (word translation : jsstring) :
  ~ In SEMI word -> ~ In SEMI translation ->
  ~ In LPAREN word -> noLineBreak (Str.trim word) ->
  parseVocabularyLine (word ++ lit ";" ++ translation)
  = Ok (Entry (Some (Str.trim word)) (Some (Str.trim translation))
          (Some (Str.trim word)) None).
Proof.
  intros Hsw Hst Hpw Hdw. change (lit ";") with [SEMI]. cbn [app].
  rewrite (parseVocabularyLine_pieces _ word [translation]).
  - destruct (exec_plain (Str.trim word)) as (m & -> & -> & ->).
    + intros H. apply Hpw. eapply trim_part. exact H.
    + exact Hdw.
    + reflexivity.
  - rewrite (split_single_first _ _ _ Hsw), (split_single_absent _ _ Hst).
    reflexivity.
Qed.

(** The entry of a line whose left-hand side has no line terminator, by the
    shape of that side. *)
Lemma parseVocabularyLine_by_shape (line lhs : jsstring) :
  List.map Str.trim (Str.split [SEMI] line) !! 0%nat = Some lhs ->
  noLineBreak lhs ->
  exists e base,
    parseVocabularyLine line = Ok e /\ baseForm e = Some base /\
    translated e = List.map Str.trim (Str.split [SEMI] line) !! 1%nat /\
    ((exists gap form,
         lhs = base ++ gap ++ LPAREN :: form ++ [RPAREN] /\
         ~ In LPAREN base /\ endsClean base = true /\ allWhiteSpace gap /\
         original e = Some (match form with [] => base | _ :: _ => form end)) \/
     ((~ In LPAREN lhs \/ last lhs <> Some RPAREN) /\
      base = lhs /\ original e = Some lhs)).
Proof.
  intros Hlhs Hdot. unfold parseVocabularyLine. rewrite Hlhs.
  destruct (exec_by_shape lhs Hdot) as (m & base & -> & H1 & Hshape).
  eexists. exists base. split; [reflexivity|].
  cbn [baseForm translated original]. split; [exact H1|]. split; [reflexivity|].
  destruct Hshape as [(gap & form & Hs & Hno & Hend & Hgap & H2)|(Hs & -> & H2)].
  - left. exists gap, form. repeat split; try assumption.
    rewrite H1, H2. destruct form; reflexivity.
  - right. repeat split; try assumption. rewrite H1, H2. reflexivity.
Qed.

Ltac chars := vm_compute; repeat constructor; intuition discriminate.

(** C5 (as amended).  When the left-hand side of a line (the text before
    the first semicolon, trimmed) has no line terminator inside, the pattern
    matches and [baseForm] is set.  If that side has an opening parenthesis
    and ends with a closing one, [baseForm] is the text before the first
    opening parenthesis without the whitespace at its end, and [original] is
    the text between that parenthesis and the last one -- or [baseForm] when
    that text is empty; otherwise [baseForm] and [original] are both the
    whole side.  So a line "base (orig);translation", with no opening
    parenthesis in base and orig not empty, gives [original] orig,
    [translated] translation and [baseForm] base; a line
    "base ();translation" gives [original] base; and a line
    "word;translation" without an opening parenthesis gives [original] word,
    [translated] translation and [baseForm] word as well.  (In the three
    forms: fields as [trim] leaves them, no further semicolon, no line
    terminator inside the parts.) *)
Theorem vocabulary_line_forms :
  (forall line lhs,
      List.map Str.trim (Str.split [SEMI] line) !! 0%nat = Some lhs ->
      noLineBreak lhs ->
      exists e base,
        parseVocabularyLine line = Ok e /\ baseForm e = Some base /\
        translated e = List.map Str.trim (Str.split [SEMI] line) !! 1%nat /\
        ((exists gap form,
             lhs = base ++ gap ++ LPAREN :: form ++ [RPAREN] /\
             ~ In LPAREN base /\ endsClean base = true /\ allWhiteSpace gap /\
             original e = Some (match form with [] => base | _ :: _ => form end)) \/
         ((~ In LPAREN lhs \/ last lhs <> Some RPAREN) /\
          base = lhs /\ original e = Some lhs))) /\
  (forall base orig translation,
      ~ In SEMI base -> ~ In SEMI orig -> ~ In SEMI translation ->
      ~ In LPAREN base ->
      noLineBreak (Str.trim base) -> noLineBreak orig -> orig <> [] ->
      let line := base ++ lit " (" ++ orig ++ lit ");" ++ translation in
      let e := Entry (Some orig) (Some (Str.trim translation))
                 (Some (Str.trim base)) None in
      parseVocabularyLine line = Ok e /\
      forall wordList (i : nat),
        vocabularyLines wordList !! i = Some line ->
        exists entries, parseVocabulary wordList = Ok entries /\
                        entries !! i = Some e) /\
  (forall base translation,
      ~ In SEMI base -> ~ In SEMI translation -> ~ In LPAREN base ->
      noLineBreak (Str.trim base) ->
      let line := base ++ lit " ();" ++ translation in
      let e := Entry (Some (Str.trim base)) (Some (Str.trim translation))
                 (Some (Str.trim base)) None in
      parseVocabularyLine line = Ok e /\
      forall wordList (i : nat),
        vocabularyLines wordList !! i = Some line ->
        exists entries, parseVocabulary wordList = Ok entries /\
                        entries !! i = Some e) /\
  (forall word translation,
      ~ In SEMI word -> ~ In SEMI translation -> ~ In LPAREN word ->
      noLineBreak (Str.trim word) ->
      let line := word ++ lit ";" ++ translation in
      let e := Entry (Some (Str.trim word)) (Some (Str.trim translation))
                 (Some (Str.trim word)) None in
      parseVocabularyLine line = Ok e /\
      forall wordList (i : nat),
        vocabularyLines wordList !! i = Some line ->
        exists entries, parseVocabulary wordList = Ok entries /\
                        entries !! i = Some e).
Proof.
  split; [exact parseVocabularyLine_by_shape|]. split; [|split].
  - intros base orig translation Hsb Hso Hst Hpb Hdb Hdo Hne line e.
    assert (He : parseVocabularyLine line = Ok e).
    { unfold line, e.
      rewrite parseVocabularyLine_parenthesized by assumption.
      destruct orig; [congruence|reflexivity]. }
    split; [exact He|]. intros wordList i Hline.
    eapply parseVocabulary_line; eassumption.
  - intros base translation Hsb Hst Hpb Hdb line e.
    assert (He : parseVocabularyLine line = Ok e).
    { unfold line, e.
      change (base ++ lit " ();" ++ translation)
        with (base ++ lit " (" ++ [] ++ lit ");" ++ translation).
      rewrite parseVocabularyLine_parenthesized;
        [reflexivity|assumption|intros []|assumption|assumption|assumption
        |constructor]. }
    split; [exact He|]. intros wordList i Hline.
    eapply parseVocabulary_line; eassumption.
  - intros word translation Hsw Hst Hpw Hdw line e.
    assert (He : parseVocabularyLine line = Ok e)
      by (apply parseVocabularyLine_plain; assumption).
    split; [exact He|]. intros wordList i Hline.
    eapply parseVocabulary_line; eassumption.
Qed.

Lemma vocabulary_line_forms_witness :
  parseVocabularyLine (lit "base (orig);translation")
  = Ok (Entry (Some (lit "orig")) (Some (lit "translation"))
          (Some (lit "base")) None) /\
  parseVocabularyLine (lit "base ();translation")
  = Ok (Entry (Some (lit "base")) (Some (lit "translation"))
          (Some (lit "base")) None) /\
  parseVocabularyLine (lit "word;translation")
  = Ok (Entry (Some (lit "word")) (Some (lit "translation"))
          (Some (lit "word")) None).
Proof.
  destruct vocabulary_line_forms as (_ & Hparen & Hempty & Hplain).
  split; [|split].
  - apply (Hparen (lit "base") (lit "orig") (lit "translation")); chars.
  - apply (Hempty (lit "base") (lit "translation")); chars.
  - apply (Hplain (lit "word") (lit "translation")); chars.
Defined.

(** C5 as stated fails in its second half: for a line without parentheses
    [baseForm] is the word, not [undefined]. *)
Lemma plain_word_has_baseForm :
  parseVocabulary (lit "word;translation")
  = Ok [Entry (Some (lit "word")) (Some (lit "translation"))
          (Some (lit "word")) None] /\
  parseVocabulary (lit "word;translation")
  <> Ok [Entry (Some (lit "word")) (Some (lit "translation")) None None].
Proof. split; [vm_compute; reflexivity|vm_compute; discriminate]. Qed.

(** C6 (as amended).  In a line with more than one semicolon the first one
    ends the left-hand side, and [translated] is the text between the first
    and the second semicolon, trimmed; the second semicolon and all that
    follows it change nothing. *)
Theorem translated_is_second_piece (lhs mid rest : jsstring) :
  ~ In SEMI lhs -> ~ In SEMI mid ->
  let line := lhs ++ SEMI :: mid ++ SEMI :: rest in
  exists e,
    parseVocabularyLine line = Ok e /\
    translated e = Some (Str.trim mid) /\
    parseVocabularyLine (lhs ++ SEMI :: mid) = Ok e /\
    forall wordList (i : nat),
      vocabularyLines wordList !! i = Some line ->
      exists entries, parseVocabulary wordList = Ok entries /\
                      entries !! i = Some e.
Proof.
  intros Hl Hm line.
  assert (Hlong : Str.split [SEMI] line = lhs :: mid :: Str.split [SEMI] rest).
  { unfold line. rewrite (split_single_first _ _ _ Hl), (split_single_first _ _ _ Hm).
    reflexivity. }
  assert (Hshort : Str.split [SEMI] (lhs ++ SEMI :: mid) = [lhs; mid]).
  { rewrite (split_single_first _ _ _ Hl), (split_single_absent _ _ Hm).
    reflexivity. }
  pose proof (parseVocabularyLine_pieces _ _ _ Hlong) as Hline.
  pose proof (parseVocabularyLine_pieces _ _ _ Hshort) as Hline'.
  cbn [lookup list_lookup fmap option_fmap option_map] in Hline, Hline'.
  destruct (exec vocabulary_pattern (Str.trim lhs)) as [m|];
    eexists; (split; [exact Hline|]); (split; [reflexivity|]);
    (split; [exact Hline'|]); intros wordList i Hi;
    eapply parseVocabulary_line; eassumption.
Qed.

Lemma translated_is_second_piece_witness :
  exists e, parseVocabularyLine (lit "a;b;c") = Ok e /\
            translated e = Some (lit "b").
Proof.
  destruct (translated_is_second_piece (lit "a") (lit "b") (lit "c")
              ltac:(chars) ltac:(chars)) as (e & He & Ht & _).
  exists e. split; [exact He|exact Ht].
Defined.

(** C6 as stated fails: of "a;b;c" only "b" is kept as [translated]. *)
Lemma later_semicolons_are_dropped :
  parseVocabulary (lit "a;b;c")
  = Ok [Entry (Some (lit "a")) (Some (lit "b")) (Some (lit "a")) None] /\
  parseVocabulary (lit "a;b;c")
  <> Ok [Entry (Some (lit "a")) (Some (lit "b;c")) (Some (lit "a")) None].
Proof. split; [vm_compute; reflexivity|vm_compute; discriminate]. Qed.


(** ** Question/answer blocks *)

Lemma parseQAPair_lines (pair first second : jsstring) (more : list jsstring) :
  Str.split [LF] pair = first :: second :: more ->
  parseQAPair pair
  = Ok (Entry (Some (Str.trim (Str.remove_first (lit "A: ") second)))
          (Some (Str.trim (Str.remove_first (lit "F: ") first))) None None).
Proof. intros H. unfold parseQAPair. rewrite H. reflexivity. Qed.

Lemma parseQAPair_two_lines (pair : jsstring) :
  In LF pair ->
  exists first second more,
    Str.split [LF] pair = first :: second :: more /\
    parseQAPair pair
    = Ok (Entry (Some (Str.trim (Str.remove_first (lit "A: ") second)))
            (Some (Str.trim (Str.remove_first (lit "F: ") first))) None None).
Proof.
  intros Hin. destruct (first_occurrence _ _ Hin) as (a & b & -> & Ha).
  destruct (split_from_nonempty [LF] 0 [] b) as (p & ps & Hp).
  exists a, p, ps.
  assert (Hsplit : Str.split [LF] (a ++ LF :: b) = a :: p :: ps).
  { rewrite (split_single_first _ _ _ Ha). unfold Str.split. rewrite Hp.
    reflexivity. }
  split; [exact Hsplit|]. apply parseQAPair_lines with (more := ps). exact Hsplit.
Qed.

Lemma parseQAPair_one_line (pair : jsstring) :
  ~ In LF pair -> parseQAPair pair = Throw TypeError.
Proof.
  intros Hno. unfold parseQAPair. rewrite (split_single_absent _ _ Hno).
  reflexivity.
Qed.

Lemma parseQAPair_throws_TypeError (pair : jsstring) (e : exn) :
  parseQAPair pair = Throw e -> e = TypeError.
Proof.
  destruct (in_dec N.eq_dec LF pair) as [Hin|Hno].
  - destruct (parseQAPair_two_lines _ Hin) as (? & ? & ? & _ & ->). discriminate.
  - rewrite (parseQAPair_one_line _ Hno). congruence.
Qed.

(** One block of a single line makes the whole parse throw. *)
Lemma parseQA_one_line_block (response block : jsstring) :
  In block (qaBlocks response) -> ~ In LF block ->
  parseQA response = Throw TypeError.
Proof.
  intros Hin Hno. apply map_throwing_throws.
  - intros a e. apply parseQAPair_throws_TypeError.
  - exists block. split; [exact Hin|].
    exists TypeError. apply parseQAPair_one_line. exact Hno.
Qed.

Lemma parseQA_total (response : jsstring) :
  (forall block, In block (qaBlocks response) -> In LF block) ->
  exists entries, parseQA response = Ok entries.
Proof.
  intros Hall. apply map_throwing_total. intros block Hin.
  destruct (parseQAPair_two_lines _ (Hall _ Hin)) as (? & ? & ? & _ & ->).
  eauto.
Qed.

(** C4 (as amended).  When every non-empty block has at least two lines,
    the parse returns one record for each block, in order, none dropped:
    the record is made of the first two lines of the block, both fields
    set, and the further lines of the block are ignored. *)
Theorem parseQA_keeps_every_block (response : jsstring) :
  (forall block, In block (qaBlocks response) -> In LF block) ->
  exists entries,
    parseQA response = Ok entries /\
    List.length entries = List.length (qaBlocks response) /\
    forall (i : nat) block,
      qaBlocks response !! i = Some block ->
      exists first second more,
        Str.split [LF] block = first :: second :: more /\
        entries !! i
        = Some (Entry (Some (Str.trim (Str.remove_first (lit "A: ") second)))
                  (Some (Str.trim (Str.remove_first (lit "F: ") first)))
                  None None).
Proof.
  intros Hall.
  destruct (parseQA_total response Hall) as [entries He].
  exists entries. split; [exact He|].
  destruct (map_throwing_lookup _ _ _ He) as [Hlen Hlook].
  split; [exact Hlen|]. intros i block Hi.
  destruct (Hlook i block Hi) as (e & Hpair & Hentry).
  assert (Hin : In block (qaBlocks response)).
  { apply list_elem_of_In. eapply list_elem_of_lookup_2. exact Hi. }
  destruct (parseQAPair_two_lines _ (Hall _ Hin))
    as (first & second & more & Hsplit & Hok).
  exists first, second, more. split; [exact Hsplit|].
  rewrite Hentry. f_equal. congruence.
Qed.

Lemma parseQA_keeps_every_block_witness :
  exists entries,
    parseQA (lit "F: Q" ++ [LF] ++ lit "A: Ans" ++ [LF] ++ lit "extra")
    = Ok entries /\ List.length entries = 1%nat.
Proof.
  destruct (parseQA_keeps_every_block
              (lit "F: Q" ++ [LF] ++ lit "A: Ans" ++ [LF] ++ lit "extra"))
    as (entries & He & Hlen & _).
  - intros block Hin. vm_compute in Hin.
    destruct Hin as [<-|[]]. vm_compute. intuition.
  - exists entries. split; [exact He|]. rewrite Hlen. reflexivity.
Defined.

(** C4 as stated fails: a block of one line yields no record, malformed or
    not; the parse throws, also when the other blocks are well formed. *)
Lemma one_line_block_throws :
  qaBlocks (lit "F: only a question") = [lit "F: only a question"] /\
  parseQA (lit "F: only a question") = Throw TypeError /\
  parseQA (lit "F: Q" ++ [LF] ++ lit "A: Ans" ++ [LF; LF] ++ lit "F: only")
  = Throw TypeError.
Proof. repeat split. Qed.


Lemma startsWith_app (p s : jsstring) : Str.startsWith p (p ++ s) = true.
Proof.
  induction p as [|c p IH]; cbn; [reflexivity|].
  rewrite N.eqb_refl. exact IH.
Qed.

Lemma startsWith_prefix (p s : jsstring) :
  Str.startsWith p s = true -> exists b, s = p ++ b.
Proof.
  revert s. induction p as [|c p IH]; intros s; cbn.
  - eauto.
  - destruct s as [|x s]; [discriminate|].
    intros H. apply andb_true_iff in H. destruct H as [Hc Hp].
    apply N.eqb_eq in Hc. subst x.
    destruct (IH _ Hp) as [b ->]. eauto.
Qed.

Lemma remove_first_unfold (pat s : jsstring) :
  Str.remove_first pat s
  = if Str.startsWith pat s then skipn (List.length pat) s
    else match s with
         | [] => []
         | c :: s' => c :: Str.remove_first pat s'
         end.
Proof. destruct s; reflexivity. Qed.

(** A marker at the beginning of the line is what [replace] removes. *)
Lemma remove_first_marker (marker s : jsstring) :
  Str.remove_first marker (marker ++ s) = s.
Proof.
  rewrite remove_first_unfold, startsWith_app. apply drop_app_length.
Qed.

(** No occurrence of the separator: one piece. *)
Lemma split_from_absent (sep piece s : jsstring) :
  (forall a b, s <> a ++ sep ++ b) ->
  Str.split_from sep 0 piece s = [rev piece ++ s].
Proof.
  revert piece. induction s as [|c s IH]; intros piece Hno.
  - cbn. rewrite app_nil_r. reflexivity.
  - cbn [Str.split_from].
    destruct (Str.startsWith sep (c :: s)) eqn:Hstart.
    + destruct (startsWith_prefix _ _ Hstart) as [b Hb].
      exfalso. apply (Hno [] b). exact Hb.
    + rewrite IH.
      * cbn. rewrite <- app_assoc. reflexivity.
      * intros a b ->. apply (Hno (c :: a) b). reflexivity.
Qed.

Lemma one_line_break_no_blank_line (u v : jsstring) :
  ~ In LF u -> ~ In LF v ->
  forall a b, u ++ LF :: v <> a ++ [LF; LF] ++ b.
Proof.
  intros Hu Hv a b Heq.
  apply (f_equal (fun l => count_occ N.eq_dec l LF)) in Heq.
  rewrite !count_occ_app in Heq. cbn in Heq.
  rewrite (proj1 (count_occ_not_In N.eq_dec u LF) Hu) in Heq.
  rewrite (proj1 (count_occ_not_In N.eq_dec v LF) Hv) in Heq.
  destruct (N.eq_dec LF LF); [|congruence]. lia.
Qed.

Lemma qa_block_one_line_break (q a : jsstring) :
  ~ In LF q -> ~ In LF a ->
  ~ In LF (lit "F: " ++ q) /\ ~ In LF (lit "A: " ++ a).
Proof.
  intros Hq Ha. split; rewrite in_app_iff; intros [H|H]; try contradiction;
    vm_compute in H; intuition discriminate.
Qed.

(** [split('\n\n')] passes over a line, and cuts after a block of two
    lines that is followed by a blank line. *)
Lemma split_blank_skip_line (piece u s : jsstring) :
  ~ In LF u ->
  Str.split_from [LF; LF] 0 piece (u ++ s)
  = Str.split_from [LF; LF] 0 (rev u ++ piece) s.
Proof.
  revert piece. induction u as [|c u IH]; intros piece Hno; [reflexivity|].
  cbn [app Str.split_from Str.startsWith].
  destruct (N.eqb_spec LF c) as [<-|_]; [exfalso; apply Hno; left; reflexivity|].
  cbn [andb]. rewrite IH by (intros H; apply Hno; right; exact H).
  cbn [rev]. rewrite <- app_assoc. reflexivity.
Qed.

Lemma split_blank_block (piece first second rest : jsstring) :
  ~ In LF first -> ~ In LF second -> second <> [] ->
  Str.split_from [LF; LF] 0 piece (first ++ LF :: second ++ LF :: LF :: rest)
  = (rev piece ++ first ++ LF :: second) :: Str.split_from [LF; LF] 0 [] rest.
Proof.
  intros Hfirst Hsecond Hne. rewrite split_blank_skip_line by exact Hfirst.
  destruct second as [|x v]; [congruence|].
  cbn [app Str.split_from Str.startsWith].
  rewrite N.eqb_refl.
  destruct (N.eqb_spec LF x) as [<-|_]; [exfalso; apply Hsecond; left; reflexivity|].
  cbn [andb].
  rewrite split_blank_skip_line by (intros H; apply Hsecond; right; exact H).
  cbn [Str.split_from Str.startsWith List.length Nat.pred]. rewrite !N.eqb_refl.
  cbn [andb]. f_equal.
  rewrite rev_app_distr. cbn [rev]. rewrite !rev_app_distr, !rev_involutive.
  cbn [rev app]. rewrite <- !app_assoc. reflexivity.
Qed.

Lemma qaBlocks_join (pairs : list (jsstring * jsstring)) :
  Forall (fun qa => ~ In LF (fst qa) /\ ~ In LF (snd qa)) pairs ->
  qaBlocks (join [LF; LF] (List.map (fun qa => qaBlock (fst qa) (snd qa)) pairs))
  = List.map (fun qa => qaBlock (fst qa) (snd qa)) pairs.
Proof.
  induction 1 as [|[q a] pairs [Hq Ha] Hall IH]; [reflexivity|].
  destruct (qa_block_one_line_break q a Hq Ha) as [Hfirst Hsecond].
  destruct pairs as [|qa' pairs].
  - cbn [List.map join fst snd]. unfold qaBlocks, Str.split, qaBlock.
    rewrite split_from_absent
      by (apply one_line_break_no_blank_line; assumption).
    reflexivity.
  - change (join [LF; LF]
              (List.map (fun qa => qaBlock (fst qa) (snd qa)) ((q, a) :: qa' :: pairs)))
      with (qaBlock q a ++ [LF; LF]
            ++ join [LF; LF]
                 (List.map (fun qa => qaBlock (fst qa) (snd qa)) (qa' :: pairs))).
    unfold qaBlocks, Str.split in *.
    set (tail := join [LF; LF]
                   (List.map (fun qa => qaBlock (fst qa) (snd qa)) (qa' :: pairs)))
      in *.
    assert (Heq : qaBlock q a ++ [LF; LF] ++ tail
                  = (lit "F: " ++ q) ++ LF :: (lit "A: " ++ a) ++ LF :: LF :: tail)
      by (unfold qaBlock; rewrite <- !app_assoc; cbn [app];
          rewrite <- !app_assoc; reflexivity).
    rewrite Heq.
    rewrite split_blank_block; [|exact Hfirst|exact Hsecond|discriminate].
    cbn [rev app List.filter List.map fst snd].
    change (Str.truthy ((lit "F: " ++ q) ++ LF :: lit "A: " ++ a)) with true.
    cbn iota. rewrite IH. reflexivity.
Qed.

(** C9 (as amended).  A block of two lines, the first beginning with the
    marker "F: " and the second with "A: " (each marker with its space): the
    markers are stripped, the first line is stored in [translated] and the
    second in [original], both as [trim] leaves them -- by the callback; by
    the parse of a reply made of such blocks set apart by blank lines, which
    gives one record for each block, in order; and at the place of such a
    block in any reply whose blocks all have a line break; a reply with a
    block without line break throws, and nothing of it is stored.
    "F: Q (Qt)" and "A: Ans (At)" give [translated] "Q (Qt)" and [original]
    "Ans (At)"; "F:Q" and "A:Ans", without the spaces, keep their markers. *)
Theorem parseQA_strips_markers (pairs : list (jsstring * jsstring)) :
  Forall (fun qa => ~ In LF (fst qa) /\ ~ In LF (snd qa)) pairs ->
  let block qa := qaBlock (fst qa) (snd qa) in
  let record qa :=
    Entry (Some (Str.trim (snd qa))) (Some (Str.trim (fst qa))) None None in
  (forall qa, In qa pairs -> parseQAPair (block qa) = Ok (record qa)) /\
  parseQA (join [LF; LF] (List.map block pairs)) = Ok (List.map record pairs) /\
  (forall qa response (i : nat),
      In qa pairs ->
      qaBlocks response !! i = Some (block qa) ->
      (forall b, In b (qaBlocks response) -> In LF b) ->
      exists entries, parseQA response = Ok entries /\
                      entries !! i = Some (record qa)) /\
  (forall response b,
      In b (qaBlocks response) -> ~ In LF b ->
      parseQA response = Throw TypeError) /\
  parseQA (lit "F: Q (Qt)" ++ [LF] ++ lit "A: Ans (At)")
  = Ok [Entry (Some (lit "Ans (At)")) (Some (lit "Q (Qt)")) None None] /\
  parseQA (lit "F:Q" ++ [LF] ++ lit "A:Ans")
  = Ok [Entry (Some (lit "A:Ans")) (Some (lit "F:Q")) None None].
Proof.
  intros Hall block record.
  assert (Hpair : forall qa, In qa pairs -> parseQAPair (block qa) = Ok (record qa)).
  { intros [q a] Hin.
    destruct (proj1 (List.Forall_forall _ _) Hall _ Hin) as [Hq Ha].
    cbn [fst snd] in Hq, Ha.
    destruct (qa_block_one_line_break q a Hq Ha) as [Hfirst Hsecond].
    unfold block, record, qaBlock. cbn [fst snd].
    rewrite (parseQAPair_lines _ (lit "F: " ++ q) (lit "A: " ++ a) []).
    - rewrite !remove_first_marker. reflexivity.
    - rewrite (split_single_first _ _ _ Hfirst), (split_single_absent _ _ Hsecond).
      reflexivity. }
  split; [exact Hpair|].
  split; [|split; [|split; [exact parseQA_one_line_block|split; reflexivity]]].
  - unfold parseQA. subst block. rewrite (qaBlocks_join pairs Hall).
    clear Hall. induction pairs as [|qa pairs IH]; [reflexivity|].
    cbn [List.map map_throwing].
    rewrite (Hpair qa) by (left; reflexivity).
    rewrite IH by (intros qa' Hin; apply Hpair; right; exact Hin).
    reflexivity.
  - intros qa response i Hin Hi Hlines.
    destruct (parseQA_total response Hlines) as [entries Hentries].
    exists entries. split; [exact Hentries|].
    destruct (map_throwing_lookup _ _ _ Hentries) as [_ Hlook].
    destruct (Hlook i (block qa) Hi) as (e' & He' & Hi').
    rewrite (Hpair qa Hin) in He'. congruence.
Qed.

Lemma parseQA_strips_markers_witness :
  parseQA (lit "F: Wo liegt Paris?" ++ [LF] ++ lit "A: In Frankreich"
           ++ [LF; LF] ++ lit "F: Und Rom?" ++ [LF] ++ lit "A: In Italien")
  = Ok [Entry (Some (lit "In Frankreich")) (Some (lit "Wo liegt Paris?")) None None;
        Entry (Some (lit "In Italien")) (Some (lit "Und Rom?")) None None].
Proof.
  apply (parseQA_strips_markers
           [(lit "Wo liegt Paris?", lit "In Frankreich");
            (lit "Und Rom?", lit "In Italien")]).
  repeat constructor; chars.
Defined.

(** C9 as stated fails for the markers it names: "F:" and "A:" without the
    space after them are not what [replace] looks for, and stay in the
    fields. *)
Lemma markers_without_space_are_kept :
  parseQA (lit "F:Q" ++ [LF] ++ lit "A:Ans")
  = Ok [Entry (Some (lit "A:Ans")) (Some (lit "F:Q")) None None].
Proof. reflexivity. Qed.

(** ** Workflow *)

Lemma resetApp_keeps_deckName (s : AppState) :
  deckName (resetApp s) = deckName s /\ inputText (resetApp s) = inputText s.
Proof. split; reflexivity. Qed.

(** C2 (as amended).  On the result screen the only control is the one that
    runs [resetApp]; it leads to the language screen and clears the selected
    language and the extracted words, as well as the progress message and the
    download URL. *)
Theorem result_exits_only_by_reset
    (getTranslation : option Language -> jsstring -> jsstring)
    (decode : list N -> jsstring) (parse : jsstring -> option jsval)
    (s s' : AppState) (ev : event) (effects : list effect) :
  step s = StepResult ->
  dispatch getTranslation decode parse s ev = Some (s', effects) ->
  ev = NewDeckPressed /\ s' = resetApp s /\
  step s' = StepLanguage /\ selectedLanguage s' = None /\
  extractedWords s' = [] /\ processing s' = [] /\ downloadUrl s' = Some [] /\
  effects = [].
Proof.
  intros Hstep Hd. unfold dispatch in Hd.
  destruct (Str.truthy (processing s)); [discriminate|].
  rewrite Hstep in Hd.
  destruct ev; try discriminate.
  injection Hd as <- <-. repeat split.
Qed.

Lemma result_exits_only_by_reset_witness :
  step (resetApp deck_done) = StepLanguage /\
  extractedWords (resetApp deck_done) = [].
Proof.
  pose proof (result_exits_only_by_reset same_text latin1
                not_json deck_done (resetApp deck_done) NewDeckPressed []
                eq_refl eq_refl) as H.
  split; apply H.
Defined.

(** C2 as stated fails: after the reset the deck name is still the one of
    the finished deck. *)
Lemma reset_does_not_clear_deckName :
  dispatch same_text latin1 not_json deck_done NewDeckPressed
    = Some (resetApp deck_done, []) /\
  deckName (resetApp deck_done) = lit "Animals" /\
  deckName (resetApp deck_done) <> [].
Proof. repeat split; discriminate. Qed.

(** C8.  [handleSubmit] with no selected word: one alert with the error
    title, no request to the proxy whatever the transport would answer, and
    the state as before (still the selection screen, not loading). *)
Theorem handleSubmit_empty_selection
    (getTranslation : option Language -> jsstring -> jsstring)
    (decode : list N -> jsstring) (parse : jsstring -> option jsval)
    (post : payload -> outcome) (s : AppState) :
  List.filter isSelected (selectedWords s) = [] ->
  let t := getTranslation (selectedLanguage s) in
  let '(s', effects) := handleSubmit getTranslation decode parse post s in
  effects = [Alert (t (lit "Error"))
               (Plain (t (lit "Please select at least one word.")))] /\
  (forall p, ~ In (Post p) effects) /\
  (forall name content, ~ In (Download name content) effects) /\
  step s' = step s /\ s' = setIsLoading false s.
Proof.
  intros Hnone t. unfold handleSubmit. cbn [selectedWords setIsLoading].
  rewrite Hnone. cbn.
  repeat split.
  - intros p [H|[]]. discriminate.
  - intros name content [H|[]]. discriminate.
Qed.

Lemma handleSubmit_empty_selection_witness :
  fst (handleSubmit same_text latin1 not_json offline nothing_selected)
  = nothing_selected.
Proof.
  pose proof (handleSubmit_empty_selection same_text latin1 not_json offline
                nothing_selected eq_refl) as H.
  cbv zeta in H.
  destruct (handleSubmit same_text latin1 not_json offline nothing_selected)
    as [s' effects].
  destruct H as (_ & _ & _ & _ & ->). reflexivity.
Defined.

(** ** Deck Service Client: classification of failures *)

Lemma t_is_not_declared : resolve sendRequestToApi_scope "t" = None.
Proof. reflexivity. Qed.

Lemma t_api_throws (text : jsstring) : t_api text = Throw (ReferenceError "t").
Proof. reflexivity. Qed.

Lemma statusTable_throws (status : Z) :
  statusTable status = Throw (ReferenceError "t").
Proof.
  unfold statusTable.
  repeat match goal with
         | |- context [match ?x with _ => _ end] => destruct x
         end; reflexivity.
Qed.

(** C10.  No scope around [sendRequestToApi] declares [t].  Every entry of
    the status table throws a ReferenceError, and so does the [catch] block
    for every error that reaches the table or one of the transport branches;
    [sendRequestToApi] then rejects with that ReferenceError. *)
Theorem unbound_t_throws_ReferenceError
    (decode : list N -> jsstring) (parse : jsstring -> option jsval)
    (error : caught) :
  reachesStatusTable decode parse error \/ reachesTransportBranch error ->
  resolve sendRequestToApi_scope "t" = None /\
  (forall status, statusTable status = Throw (ReferenceError "t")) /\
  catchBlock decode parse error = ReferenceError "t" /\
  (forall post vocabulary deckName p,
      buildPayload vocabulary deckName = Ok p -> post p = Rejected error ->
      sendRequestToApi decode parse post vocabulary deckName
      = ([Post p], Throw (ReferenceError "t"))).
Proof.
  intros Hreach.
  assert (Hcatch : catchBlock decode parse error = ReferenceError "t").
  { unfold catchBlock, errorMessage.
    destruct Hreach as [(r & e & Hr & Hbody) | (Hnone & Hbranch)].
    - rewrite Hr, Hbody, statusTable_throws. reflexivity.
    - rewrite Hnone.
      destruct Hbranch as [Hc | [Hc | Hq]].
      + rewrite Hc. reflexivity.
      + rewrite Hc. reflexivity.
      + rewrite Hq.
        repeat case_bool_decide; reflexivity. }
  split; [reflexivity|]. split; [apply statusTable_throws|].
  split; [exact Hcatch|].
  intros post vocabulary deckName p Hp Hpost.
  unfold sendRequestToApi. rewrite Hp, Hpost, Hcatch. reflexivity.
Qed.

Lemma unbound_t_throws_ReferenceError_witness :
  catchBlock latin1 not_json too_large_no_body = ReferenceError "t".
Proof.
  apply (unbound_t_throws_ReferenceError latin1 not_json too_large_no_body).
  left. exists (Response 413 (Decoded VUndefined)), (ReferenceError "t").
  split; reflexivity.
Defined.

Lemma getPropertyOptional_total (d : jsval) (name : jsstring) :
  exists v, getPropertyOptional d name = Ok v.
Proof. destruct d; cbn; eauto. Qed.

(** C3 (as amended).  Whatever the status code: a body that decodes to an
    object with a truthy [error] gives that value as the message; raw bytes
    whose text is not JSON give the text itself; and the status table is
    entered only for a body that is not raw bytes and has neither a truthy
    [error] nor a truthy [message]. *)
Theorem body_message_precedes_status
    (decode : list N -> jsstring) (parse : jsstring -> option jsval)
    (status : Z) (code : option jsstring) (request : bool) (message : jsstring) :
  let failure b := AxiosError (Some (Response status b)) code request message in
  (forall bytes props msg,
      parse (decode bytes) = Some (VObject props) ->
      props !! lit "error" = Some msg -> truthy msg = true ->
      catchBlock decode parse (failure (ArrayBuffer bytes)) = JsError msg) /\
  (forall props msg,
      props !! lit "error" = Some msg -> truthy msg = true ->
      catchBlock decode parse (failure (Decoded (VObject props))) = JsError msg) /\
  (forall bytes,
      parse (decode bytes) = None ->
      catchBlock decode parse (failure (ArrayBuffer bytes))
      = JsError (VString (decode bytes))) /\
  (forall b e,
      messageFromBody decode parse (Response status b) = Throw e ->
      exists d ve vm,
        b = Decoded d /\
        getPropertyOptional d (lit "error") = Ok ve /\ truthy ve = false /\
        getPropertyOptional d (lit "message") = Ok vm /\ truthy vm = false).
Proof.
  intros failure. repeat split.
  - intros bytes props msg Hparse Hprop Htruthy.
    unfold catchBlock, errorMessage, failure, messageFromBody. cbn.
    rewrite Hparse. cbn. rewrite Hprop. cbn.
    unfold or_lazy. rewrite Htruthy. reflexivity.
  - intros props msg Hprop Htruthy.
    unfold catchBlock, errorMessage, failure, messageFromBody. cbn.
    rewrite Hprop. cbn. unfold or_lazy. rewrite Htruthy. reflexivity.
  - intros bytes Hparse.
    unfold catchBlock, errorMessage, failure, messageFromBody. cbn.
    rewrite Hparse. reflexivity.
  - intros b e Hthrow. unfold messageFromBody in Hthrow. cbn in Hthrow.
    destruct b as [bytes | d].
    + destruct (_ ≫= _) in Hthrow; discriminate.
    + destruct (getPropertyOptional_total d (lit "error")) as [ve Hve].
      destruct (getPropertyOptional_total d (lit "message")) as [vm Hvm].
      exists d, ve, vm. rewrite Hve, Hvm in *. cbn in Hthrow.
      unfold or_lazy in Hthrow.
      destruct (truthy ve); [discriminate|]. cbn in Hthrow.
      destruct (truthy vm); [discriminate|]. repeat split.
Qed.

Lemma body_message_precedes_status_witness :
  catchBlock latin1 parse_too_big
    (AxiosError (Some (Response 413 (ArrayBuffer too_big_body))) None true [])
  = JsError (VString (lit "too big")).
Proof.
  apply (body_message_precedes_status latin1 parse_too_big 413 None true [])
    with (props := {[ lit "error" := VString (lit "too big") ]}).
  - reflexivity.
  - reflexivity.
  - reflexivity.
Defined.

(** C3 as stated fails: a 413 whose body is not JSON is reported with the
    text of the body, and a 413 without a body ends in a ReferenceError;
    neither is the table's message for 413. *)
Lemma status_413_is_not_list_too_large :
  catchBlock latin1 not_json too_large_html = JsError (VString gateway_page) /\
  catchBlock latin1 not_json too_large_html
    <> JsError (VString (lit "List too large")) /\
  catchBlock latin1 not_json too_large_no_body
    <> JsError (VString (lit "List too large")).
Proof. repeat split; discriminate. Qed.

(** ** Deck Service Client: the payload *)

Lemma setProperty_lookup (obj : gmap jsstring jsstring) (key value k : jsstring) :
  setProperty obj key value !! k
  = if bool_decide (key = k /\ key <> lit "__proto__") then Some value else obj !! k.
Proof.
  unfold setProperty.
  destruct (bool_decide_reflect (key = lit "__proto__")) as [Hp|Hp].
  - rewrite bool_decide_eq_false_2; [reflexivity|]. intros [_ H]. contradiction.
  - destruct (decide (key = k)) as [->|Hne].
    + rewrite bool_decide_eq_true_2 by (split; [reflexivity|exact Hp]).
      apply lookup_insert_eq.
    + rewrite bool_decide_eq_false_2 by (intros [H _]; contradiction).
      apply lookup_insert_ne. exact Hne.
Qed.

Lemma fillVocabObject_app (es1 es2 : list entry) (m : gmap jsstring jsstring) :
  fillVocabObject (es1 ++ es2) m
  = m1 ← fillVocabObject es1 m; fillVocabObject es2 m1.
Proof.
  revert m. induction es1 as [|e es1 IH]; intros m; cbn; [reflexivity|].
  destruct (translated e), (original e); cbn; try reflexivity. apply IH.
Qed.

Lemma fillVocabObject_total (es : list entry) (m : gmap jsstring jsstring) :
  Forall hasStrings es -> exists m', fillVocabObject es m = Ok m'.
Proof.
  intros Hall. revert m.
  induction Hall as [|e es [[tr Htr] [o Ho]] _ IH]; intros m; cbn; [eauto|].
  rewrite Htr, Ho. apply IH.
Qed.

Lemma fillVocabObject_throws (es : list entry) (m : gmap jsstring jsstring) :
  Exists (fun e => ~ hasStrings e) es -> fillVocabObject es m = Throw TypeError.
Proof.
  intros Hex. revert m. induction es as [|e es IH]; intros m;
    [inversion Hex|]. cbn.
  destruct (translated e) as [tr|] eqn:Htr; [|reflexivity].
  destruct (original e) as [o|] eqn:Ho; [|reflexivity].
  apply IH. inversion Hex as [? ? Hbad|]; subst; [|assumption].
  exfalso. apply Hbad. unfold hasStrings. rewrite Htr, Ho. eauto.
Qed.

Lemma fillVocabObject_other (es : list entry) (m m' : gmap jsstring jsstring)
    (k : jsstring) :
  fillVocabObject es m = Ok m' ->
  Forall (fun e => payloadKey e <> Some k) es ->
  m' !! k = m !! k.
Proof.
  revert m. induction es as [|e es IH]; intros m Hfill Hno; cbn in Hfill.
  - injection Hfill as <-. reflexivity.
  - inversion Hno as [|? ? Hk Hrest]; subst.
    destruct (translated e) as [tr|] eqn:Htr; [|discriminate].
    destruct (original e) as [o|]; [|discriminate].
    rewrite (IH _ Hfill Hrest), setProperty_lookup.
    rewrite bool_decide_eq_false_2; [reflexivity|].
    intros [Heq _]. apply Hk.
    unfold payloadKey. rewrite Htr. cbn. congruence.
Qed.

Lemma fillVocabObject_last (before after : list entry) (e : entry)
    (m m' : gmap jsstring jsstring) (k v : jsstring) :
  fillVocabObject (before ++ e :: after) m = Ok m' ->
  payloadKey e = Some k -> payloadValue e = Some v ->
  k <> lit "__proto__" ->
  Forall (fun e' => payloadKey e' <> Some k) after ->
  m' !! k = Some v.
Proof.
  intros Hfill Hk Hv Hproto Hafter.
  rewrite fillVocabObject_app in Hfill.
  destruct (fillVocabObject before m) as [m1|]; [|discriminate].
  cbn in Hfill. unfold payloadKey, payloadValue in Hk, Hv.
  destruct (translated e) as [tr|]; [|discriminate].
  destruct (original e) as [o|]; [|discriminate].
  cbn in Hk, Hv. injection Hk as <-. injection Hv as <-.
  rewrite (fillVocabObject_other _ _ _ _ Hfill Hafter), setProperty_lookup.
  rewrite bool_decide_eq_true_2; [reflexivity|]. split; [reflexivity|exact Hproto].
Qed.

(** The keys of the result: those already there and those of the entries,
    but "__proto__". *)
Lemma fillVocabObject_keys (es : list entry) (m m' : gmap jsstring jsstring)
    (k : jsstring) :
  fillVocabObject es m = Ok m' ->
  is_Some (m' !! k) <->
  is_Some (m !! k) \/
  (k <> lit "__proto__" /\ exists e, In e es /\ payloadKey e = Some k).
Proof.
  revert m. induction es as [|e es IH]; intros m Hfill; cbn in Hfill.
  - injection Hfill as <-. split; [auto|]. intros [H|(_ & e & [] & _)]. exact H.
  - destruct (translated e) as [tr|] eqn:Htr; [|discriminate].
    destruct (original e) as [o|]; [|discriminate].
    rewrite (IH _ Hfill). clear IH Hfill.
    assert (Hkey : payloadKey e = Some (Str.trim tr))
      by (unfold payloadKey; rewrite Htr; reflexivity).
    rewrite setProperty_lookup.
    destruct (bool_decide_reflect (Str.trim tr = k /\ Str.trim tr <> lit "__proto__"))
      as [[<- Hp]|Hno].
    + split; intros _.
      * right. split; [exact Hp|]. exists e. split; [left; reflexivity|exact Hkey].
      * left. eauto.
    + split.
      * intros [H|(Hp & e' & Hin & He')]; [left; exact H|].
        right. split; [exact Hp|]. exists e'. split; [right; exact Hin|exact He'].
      * intros [H|(Hp & e' & [<-|Hin] & He')]; [left; exact H| |].
        -- exfalso. apply Hno. rewrite Hkey in He'. injection He' as He'.
           split; [exact He'|]. rewrite He'. exact Hp.
        -- right. split; [exact Hp|]. exists e'. split; assumption.
Qed.

Lemma fillVocabObject_ignores_selected (sel : entry -> option bool)
    (es : list entry) (m : gmap jsstring jsstring) :
  fillVocabObject
    (List.map (fun e => Entry (original e) (translated e) (baseForm e) (sel e)) es) m
  = fillVocabObject es m.
Proof.
  revert m. induction es as [|e es IH]; intros m; cbn; [reflexivity|].
  destruct (translated e), (original e); try reflexivity. apply IH.
Qed.

(** C7 (as amended).  When every entry has strings in [translated] and
    [original], [buildPayload] returns a payload, the same whatever the
    [selected] flags are; its keys are the keys of the entries, of every one
    of them but the key "__proto__", for which nothing is stored; and for a
    key that entries share the value is that of the last of them.  Keys and
    values are the fields as [trim] leaves them.  When some entry has no
    string in one of the two fields, there is no payload: a TypeError is
    thrown.  The two "haus" entries give the one-entry map from "haus" to
    "house2". *)
Theorem buildPayload_maps_translated_to_original
    (entries : list entry) (deckName : jsstring) :
  (Exists (fun e => ~ hasStrings e) entries ->
   buildPayload entries deckName = Throw TypeError) /\
  (Forall hasStrings entries ->
   exists p,
     buildPayload entries deckName = Ok p /\
     (forall sel,
         buildPayload
           (List.map (fun e => Entry (original e) (translated e) (baseForm e) (sel e))
              entries) deckName = Ok p) /\
     (forall k, is_Some (vocabulary p !! k) <->
                k <> lit "__proto__" /\
                exists e, In e entries /\ payloadKey e = Some k) /\
     (forall before e after k v,
         entries = before ++ e :: after ->
         payloadKey e = Some k -> payloadValue e = Some v ->
         k <> lit "__proto__" ->
         Forall (fun e' => payloadKey e' <> Some k) after ->
         vocabulary p !! k = Some v)) /\
  (buildPayload [haus; haus2] deckName
   = Ok (Payload (if Str.truthy deckName then deckName else lit "Default Deck")
           {[ lit "haus" := lit "house2" ]})).
Proof.
  split; [|split; [|reflexivity]].
  - intros Hex. unfold buildPayload.
    rewrite (fillVocabObject_throws _ _ Hex). reflexivity.
  - intros Hall.
    destruct (fillVocabObject_total entries ∅ Hall) as [m Hm].
    exists (Payload (if Str.truthy deckName then deckName else lit "Default Deck") m).
    unfold buildPayload. rewrite Hm. cbn [mbind mret vocabulary].
    split; [reflexivity|]. split; [|split].
    + intros sel. rewrite fillVocabObject_ignores_selected, Hm. reflexivity.
    + intros k. rewrite (fillVocabObject_keys _ _ _ k Hm), lookup_empty. split.
      * intros [[x Hx]|H]; [discriminate|exact H].
      * intros H. right. exact H.
    + intros before e after k v -> Hk Hv Hp Hafter.
      exact (fillVocabObject_last _ _ _ _ _ _ _ Hm Hk Hv Hp Hafter).
Qed.

Lemma buildPayload_maps_translated_to_original_witness :
  exists p, buildPayload [haus; haus2] (lit "Animals") = Ok p /\
            vocabulary p !! lit "haus" = Some (lit "house2").
Proof.
  destruct (buildPayload_maps_translated_to_original [haus; haus2] (lit "Animals"))
    as (_ & Hmap & _).
  destruct Hmap as (p & Hp & _ & _ & Hlast).
  - repeat constructor; cbn; eauto.
  - exists p. split; [exact Hp|].
    apply (Hlast [haus] haus2 [] (lit "haus") (lit "house2")).
    + reflexivity.
    + reflexivity.
    + reflexivity.
    + vm_compute. discriminate.
    + constructor.
Defined.

(** C7 as stated fails for some entry lists: an entry without [translated]
    (what the vocabulary parse makes of a line without semicolon) gives a
    TypeError and no mapping, and the key "__proto__" is not stored. *)
Lemma entry_list_without_mapping :
  buildPayload [no_translation] (lit "Animals") = Throw TypeError /\
  buildPayload [Entry (Some (lit "x")) (Some (lit "__proto__")) None None]
    (lit "Animals")
  = Ok (Payload (lit "Animals") ∅).
Proof. split; reflexivity. Qed.

(** * Further properties *)

(** ** The selection editor *)

Lemma mapAt_lookup (index : nat) (f : entry -> entry) (l : list entry) (j : nat) :
  mapAt index f l !! j
  = (fun w => if Nat.eqb j index then f w else w) <$> l !! j.
Proof. unfold mapAt. apply list_lookup_imap. Qed.

Lemma mapAt_length (index : nat) (f : entry -> entry) (l : list entry) :
  List.length (mapAt index f l) = List.length l.
Proof. unfold mapAt. apply length_imap. Qed.

Lemma mapAt_out_of_range (index : nat) (f : entry -> entry) (l : list entry) :
  (List.length l <= index)%nat -> mapAt index f l = l.
Proof.
  intros Hle. apply list_eq. intros j. rewrite mapAt_lookup.
  destruct (l !! j) as [w|] eqn:Hj; [|reflexivity]. cbn.
  apply lookup_lt_Some in Hj.
  destruct (Nat.eqb_spec j index) as [->|_]; [lia|reflexivity].
Qed.

Lemma setSelectedWords_same (s : AppState) : setSelectedWords (selectedWords s) s = s.
Proof. destruct s. reflexivity. Qed.

Lemma toggled_twice (w : entry) :
  is_Some (selected w) -> toggled (toggled w) = w.
Proof.
  intros [b Hb]. destruct w as [o t bf sel]. cbn in Hb. subst sel.
  unfold toggled, withSelected, isSelected. cbn. rewrite negb_involutive.
  reflexivity.
Qed.

Lemma toggled_twice_selected (w : entry) :
  isSelected (toggled (toggled w)) = isSelected w.
Proof. unfold toggled, withSelected, isSelected. cbn. apply negb_involutive. Qed.

(** X1.  Toggling the same index twice gives every card its selection back;
    when the cards carry a [selected] flag, as they do once the screen is
    mounted, the whole state is as before. *)
Theorem toggleWord_twice (index : nat) (s : AppState) :
  List.map isSelected (selectedWords (toggleWord index (toggleWord index s)))
  = List.map isSelected (selectedWords s) /\
  (Forall (fun w => is_Some (selected w)) (selectedWords s) ->
   toggleWord index (toggleWord index s) = s).
Proof.
  split.
  - unfold toggleWord. cbn [selectedWords setSelectedWords].
    apply list_eq. intros j.
    change (List.map isSelected) with (fmap (M := list) isSelected).
    rewrite !list_lookup_fmap, !mapAt_lookup.
    destruct (selectedWords s !! j) as [w|]; [|reflexivity]. cbn.
    destruct (Nat.eqb j index); [|reflexivity].
    f_equal. apply toggled_twice_selected.
  - intros Hall.
    assert (Hsame : mapAt index toggled (mapAt index toggled (selectedWords s))
                    = selectedWords s); [|
      change (toggleWord index (toggleWord index s))
        with (setSelectedWords
                (mapAt index toggled (mapAt index toggled (selectedWords s)))
                (toggleWord index s));
      rewrite Hsame; destruct s; reflexivity].
    apply list_eq. intros j. rewrite !mapAt_lookup.
    destruct (selectedWords s !! j) as [w|] eqn:Hj; [|reflexivity]. cbn.
    destruct (Nat.eqb j index); [|reflexivity].
    f_equal. apply toggled_twice.
    rewrite List.Forall_forall in Hall. apply Hall.
    apply list_elem_of_In. eapply list_elem_of_lookup_2. exact Hj.
Qed.

Lemma toggleWord_twice_witness :
  toggleWord 0 (toggleWord 0 nothing_selected) = nothing_selected.
Proof.
  apply (toggleWord_twice 0 nothing_selected).
  repeat constructor. cbn. eauto.
Defined.

(** X2.  [toggleWord] flips [selected] at the index and nothing else: the
    list keeps its length, the texts of every card stay, the cards at other
    indices are untouched, the cells of [RootApp] are untouched, and an
    index past the end changes nothing. *)
Theorem toggleWord_flips_one (index : nat) (s : AppState) :
  List.length (selectedWords (toggleWord index s)) = List.length (selectedWords s) /\
  sameRootCells s (toggleWord index s) /\
  (forall (j : nat) w,
      selectedWords s !! j = Some w ->
      exists w',
        selectedWords (toggleWord index s) !! j = Some w' /\
        original w' = original w /\ translated w' = translated w /\
        baseForm w' = baseForm w /\
        isSelected w' = (if Nat.eqb j index then negb (isSelected w) else isSelected w) /\
        (j <> index -> w' = w)) /\
  ((List.length (selectedWords s) <= index)%nat -> toggleWord index s = s).
Proof.
  split; [apply mapAt_length|]. split; [repeat split|]. split.
  - intros j w Hj. unfold toggleWord. cbn [selectedWords setSelectedWords].
    rewrite mapAt_lookup, Hj. cbn.
    destruct (Nat.eqb_spec j index) as [->|Hne].
    + eexists. split; [reflexivity|]. repeat split. congruence.
    + exists w. repeat split.
  - intros Hle. unfold toggleWord. rewrite (mapAt_out_of_range _ _ _ Hle).
    apply setSelectedWords_same.
Qed.

Lemma toggleWord_flips_one_witness : toggleWord 5 nothing_selected = nothing_selected.
Proof.
  apply (toggleWord_flips_one 5 nothing_selected). cbn. lia.
Defined.

(** X3.  [updateWord] writes the value into the named field of the card at
    the index and nothing else: the other field, [baseForm] and [selected] of
    that card stay, the other cards and the cells of [RootApp] are untouched,
    the list keeps its length, and an index past the end changes nothing. *)
Theorem updateWord_writes_one (index : nat) (f : field) (value : jsstring)
    (s : AppState) :
  List.length (selectedWords (updateWord index f value s))
  = List.length (selectedWords s) /\
  sameRootCells s (updateWord index f value s) /\
  (forall (j : nat) w,
      selectedWords s !! j = Some w ->
      exists w',
        selectedWords (updateWord index f value s) !! j = Some w' /\
        readField f w' = (if Nat.eqb j index then Some value else readField f w) /\
        readField (otherField f) w' = readField (otherField f) w /\
        baseForm w' = baseForm w /\ selected w' = selected w /\
        (j <> index -> w' = w)) /\
  ((List.length (selectedWords s) <= index)%nat -> updateWord index f value s = s).
Proof.
  split; [apply mapAt_length|]. split; [repeat split|]. split.
  - intros j w Hj. unfold updateWord. cbn [selectedWords setSelectedWords].
    rewrite mapAt_lookup, Hj. cbn.
    destruct (Nat.eqb_spec j index) as [->|Hne].
    + eexists. split; [reflexivity|]. destruct f; repeat split; congruence.
    + exists w. repeat split.
  - intros Hle. unfold updateWord. rewrite (mapAt_out_of_range _ _ _ Hle).
    apply setSelectedWords_same.
Qed.

Lemma updateWord_writes_one_witness :
  updateWord 5 FieldOriginal (lit "Haus") nothing_selected = nothing_selected.
Proof.
  apply (updateWord_writes_one 5 FieldOriginal (lit "Haus") nothing_selected).
  cbn. lia.
Defined.

(** ** Submitting the selection *)

Lemma buildPayload_ok_vocabulary (es : list entry) (deckName : jsstring) (p : payload) :
  buildPayload es deckName = Ok p -> fillVocabObject es ∅ = Ok (vocabulary p).
Proof.
  unfold buildPayload. destruct (fillVocabObject es ∅) as [m|]; [|discriminate].
  cbn. intros [= <-]. reflexivity.
Qed.

(** What [sendRequestToApi] can do: nothing before the payload is built, one
    request, and a download only after a fulfilled request. *)
Lemma sendRequestToApi_cases (decode : list N -> jsstring)
    (parse : jsstring -> option jsval) (post : payload -> outcome)
    (words : list entry) (deckName : jsstring) :
  (exists e, buildPayload words deckName = Throw e /\
             sendRequestToApi decode parse post words deckName
             = ([], Throw (catchBlock decode parse (Native e)))) \/
  (exists p e, buildPayload words deckName = Ok p /\
               sendRequestToApi decode parse post words deckName
               = ([Post p], Throw e)) \/
  (exists p name content,
      buildPayload words deckName = Ok p /\
      sendRequestToApi decode parse post words deckName
      = ([Post p; Download name content], Ok true)).
Proof.
  unfold sendRequestToApi.
  destruct (buildPayload words deckName) as [p|e]; [|left; eauto].
  right. destruct (post p) as [r|error]; [|left; eauto].
  destruct (body_truthy (data r)); [right|left]; eauto.
Qed.

(** X4.  Only the selected cards are sent: a request that [handleSubmit]
    makes carries the payload built from the selected cards, so its keys
    are exactly the keys of selected cards, but for the key "__proto__",
    which is never sent. *)
Theorem handleSubmit_posts_selected
    (getTranslation : option Language -> jsstring -> jsstring)
    (decode : list N -> jsstring) (parse : jsstring -> option jsval)
    (post : payload -> outcome) (s : AppState) (p : payload) :
  In (Post p) (snd (handleSubmit getTranslation decode parse post s)) ->
  buildPayload (List.filter isSelected (selectedWords s)) (deckName s) = Ok p /\
  forall k, is_Some (vocabulary p !! k) <->
            k <> lit "__proto__" /\
            exists w, In w (selectedWords s) /\ isSelected w = true /\
                      payloadKey w = Some k.
Proof.
  intros Hin.
  assert (Hp : buildPayload (List.filter isSelected (selectedWords s)) (deckName s)
               = Ok p).
  { unfold handleSubmit in Hin. cbn [selectedWords setIsLoading] in Hin.
    destruct (Nat.eqb _ 0).
    - cbn in Hin. destruct Hin as [H|[]]. discriminate.
    - destruct (sendRequestToApi_cases decode parse post
                  (List.filter isSelected (selectedWords s)) (deckName s))
        as [(e & _ & Hs) | [(p' & e & Hb & Hs) | (p' & n & c & Hb & Hs)]];
        rewrite Hs in Hin; cbn in Hin.
      + destruct Hin as [H|[]]. discriminate.
      + destruct Hin as [[= <-]|[H|[]]]; [exact Hb|discriminate].
      + destruct Hin as [[= <-]|[H|[H|[]]]]; [exact Hb|discriminate|discriminate]. }
  split; [exact Hp|]. intros k.
  rewrite (fillVocabObject_keys _ _ _ k (buildPayload_ok_vocabulary _ _ _ Hp)).
  rewrite lookup_empty. split.
  - intros [[x Hx]|(Hproto & w & Hw & Hk)]; [discriminate|].
    apply filter_In in Hw. destruct Hw as [Hw Hsel]. eauto.
  - intros (Hproto & w & Hw & Hsel & Hk). right. split; [exact Hproto|].
    exists w. split; [|exact Hk]. apply filter_In. split; assumption.
Qed.

Lemma handleSubmit_posts_selected_witness :
  exists p, buildPayload [haus] (lit "Animals") = Ok p /\
            vocabulary p !! lit "Katze" = None.
Proof.
  exists (Payload (lit "Animals") {[ lit "haus" := lit "house" ]}).
  destruct (handleSubmit_posts_selected same_text latin1 not_json offline
              one_selected
              (Payload (lit "Animals") {[ lit "haus" := lit "house" ]}))
    as [Hp _].
  - left. reflexivity.
  - split; [exact Hp|reflexivity].
Defined.

(** X5.  A submission with at least one selected card ends in one of two
    ways.  Either the request with the payload of the selected cards was
    fulfilled with a truthy body: the effects are the request, the download
    of that body and the success alert, and the workflow is on the result
    screen with [downloadUrl] null.  Or it failed: nothing was downloaded,
    the last effect is an alert with the error title and the message of the
    error that the [catch] block of [sendRequestToApi] made -- of the
    TypeError when the payload could not be built (no request then), of the
    rejection of the request, or of "Failed to generate Anki deck" when the
    body was falsy -- and the workflow stays where it was.  Either way the
    progress message is cleared and the loading flag is off. *)
Theorem handleSubmit_outcomes
    (getTranslation : option Language -> jsstring -> jsstring)
    (decode : list N -> jsstring) (parse : jsstring -> option jsval)
    (post : payload -> outcome) (s : AppState) :
  List.filter isSelected (selectedWords s) <> [] ->
  let t := getTranslation (selectedLanguage s) in
  let words := List.filter isSelected (selectedWords s) in
  let '(s', effects) := handleSubmit getTranslation decode parse post s in
  processing s' = [] /\ isLoading s' = false /\
  deckName s' = deckName s /\ extractedWords s' = extractedWords s /\
  ((exists p r,
       buildPayload words (deckName s) = Ok p /\
       post p = Fulfilled r /\ body_truthy (data r) = true /\
       effects = [Post p;
                  Download ((if Str.truthy (deckName s) then deckName s
                             else lit "Anki-Cards") ++ lit ".apkg") (data r);
                  Alert (t (lit "Success!"))
                    (Plain (t (lit "Your Anki deck has been downloaded!")))] /\
       step s' = StepResult /\ downloadUrl s' = None) \/
   (exists sent error,
       effects = sent ++ [Alert (t (lit "Error"))
                            (MessageOf (catchBlock decode parse error))] /\
       ((exists e, buildPayload words (deckName s) = Throw e /\
                   sent = [] /\ error = Native e) \/
        (exists p, buildPayload words (deckName s) = Ok p /\
                   post p = Rejected error /\ sent = [Post p]) \/
        (exists p r, buildPayload words (deckName s) = Ok p /\
                     post p = Fulfilled r /\ body_truthy (data r) = false /\
                     sent = [Post p] /\
                     error = Native (JsError (VString
                                       (lit "Failed to generate Anki deck"))))) /\
       step s' = step s /\ downloadUrl s' = downloadUrl s)).
Proof.
  intros Hne t words. subst words. unfold handleSubmit.
  cbn [selectedWords setIsLoading].
  destruct (List.filter isSelected (selectedWords s)) as [|w ws] eqn:Hf;
    [congruence|]. cbn [List.length Nat.eqb].
  unfold sendRequestToApi. cbn [deckName].
  destruct (buildPayload (w :: ws) (deckName s)) as [p|e] eqn:Hbuild.
  - destruct (post p) as [r|error] eqn:Hpost.
    + destruct (body_truthy (data r)) eqn:Hbody.
      * cbn. split; [reflexivity|]. split; [reflexivity|].
        split; [reflexivity|]. split; [reflexivity|].
        left. exists p, r. repeat split. exact Hpost. exact Hbody.
      * assert (Hright :
          exists sent error,
            [Post p] ++ [Alert (t (lit "Error"))
                           (MessageOf (catchBlock decode parse
                              (Native (JsError (VString
                                 (lit "Failed to generate Anki deck"))))))]
            = sent ++ [Alert (t (lit "Error"))
                         (MessageOf (catchBlock decode parse error))] /\
            ((exists e, Ok p = Throw e /\ sent = [] /\ error = Native e) \/
             (exists p0, Ok p = Ok p0 /\ post p0 = Rejected error /\
                         sent = [Post p0]) \/
             (exists p0 r0, Ok p = Ok p0 /\ post p0 = Fulfilled r0 /\
                            body_truthy (data r0) = false /\ sent = [Post p0] /\
                            error = Native (JsError (VString
                                      (lit "Failed to generate Anki deck")))))).
        { exists [Post p]; eexists. split; [reflexivity|].
          right; right. exists p, r. repeat split; assumption. }
        destruct Hright as (sent & error & Heff & Hcase).
        destruct (Str.truthy _);
          (split; [reflexivity|]; split; [reflexivity|];
           split; [reflexivity|]; split; [reflexivity|];
           right; exists sent, error;
           split; [exact Heff|]; split; [exact Hcase|]; split; reflexivity).
    + destruct (Str.truthy _);
        (split; [reflexivity|]; split; [reflexivity|];
         split; [reflexivity|]; split; [reflexivity|];
         right; exists [Post p], error;
         split; [reflexivity|];
         split; [right; left; exists p; repeat split; exact Hpost|];
         split; reflexivity).
  - destruct (Str.truthy _);
      (split; [reflexivity|]; split; [reflexivity|];
       split; [reflexivity|]; split; [reflexivity|];
       right; exists [], (Native e);
       split; [reflexivity|];
       split; [left; exists e; repeat split|];
       split; reflexivity).
Qed.

Lemma handleSubmit_outcomes_witness :
  processing (fst (handleSubmit same_text latin1 not_json served one_selected)) = [] /\
  isLoading (fst (handleSubmit same_text latin1 not_json served one_selected)) = false.
Proof.
  pose proof (handleSubmit_outcomes same_text latin1 not_json served one_selected
                ltac:(discriminate)) as H.
  cbv zeta in H.
  destruct (handleSubmit same_text latin1 not_json served one_selected) as [s' effs].
  destruct H as (Hp & Hl & _). split; assumption.
Defined.

(** X6.  A selected card whose [translated] or [original] is [undefined]
    (what a reply line without semicolon leaves, unless the user fills it in)
    stops the submission before any request: the only effect is the error
    alert with the message of the TypeError, and the workflow stays. *)
Theorem handleSubmit_undefined_field
    (getTranslation : option Language -> jsstring -> jsstring)
    (decode : list N -> jsstring) (parse : jsstring -> option jsval)
    (post : payload -> outcome) (s : AppState) :
  Exists (fun w => ~ hasStrings w) (List.filter isSelected (selectedWords s)) ->
  let t := getTranslation (selectedLanguage s) in
  let '(s', effects) := handleSubmit getTranslation decode parse post s in
  effects = [Alert (t (lit "Error")) (MessageOf (JsErrorFrom TypeError))] /\
  step s' = step s /\ processing s' = [].
Proof.
  intros Hbad t. unfold handleSubmit. cbn [selectedWords setIsLoading].
  destruct (List.filter isSelected (selectedWords s)) as [|w ws] eqn:Hf;
    [inversion Hbad|]. cbn [List.length Nat.eqb].
  unfold sendRequestToApi, buildPayload.
  rewrite (fillVocabObject_throws _ _ Hbad). cbn.
  destruct (Str.truthy _); repeat split.
Qed.

Lemma handleSubmit_undefined_field_witness :
  snd (handleSubmit same_text latin1 not_json served untranslated_selected)
  = [Alert (lit "Error") (MessageOf (JsErrorFrom TypeError))].
Proof.
  pose proof (handleSubmit_undefined_field same_text latin1 not_json served
                untranslated_selected) as H.
  cbv zeta in H.
  destruct (handleSubmit same_text latin1 not_json served untranslated_selected)
    as [s' effs].
  apply H. constructor. unfold hasStrings. cbn. intros [[x Hx] _]. discriminate.
Defined.

(** ** Failures of the deck service with a body *)

(** X7.  With a body of raw bytes (what [responseType: 'arraybuffer'] gives)
    the [catch] block always ends in [new Error(message)], never in the
    ReferenceError of the unbound [t], and the message is chosen in this
    order: the [error] property of the parsed body when it is truthy, else
    its [message] property when that is truthy, else the decoded text
    itself -- also when the text is no JSON, is JSON but no object, or is an
    object without such a property. *)
Theorem arraybuffer_body_always_has_message
    (decode : list N -> jsstring) (parse : jsstring -> option jsval)
    (status : Z) (bytes : list N) (code : option jsstring) (request : bool)
    (message : jsstring) :
  let property (name : jsstring) : jsval :=
    match parse (decode bytes) with
    | Some (VObject props) => default VUndefined (props !! name)
    | _ => VUndefined
    end in
  catchBlock decode parse
    (AxiosError (Some (Response status (ArrayBuffer bytes))) code request message)
  = JsError (if truthy (property (lit "error")) then property (lit "error")
             else if truthy (property (lit "message")) then property (lit "message")
             else VString (decode bytes)).
Proof.
  cbv zeta. unfold catchBlock, errorMessage, messageFromBody.
  cbn [error_response data].
  destruct (parse (decode bytes)) as [[| | b | n | s | items | props]|] eqn:Hparse;
    cbn; try reflexivity.
  unfold or_lazy.
  destruct (truthy (default VUndefined (props !! lit "error"))); [reflexivity|].
  cbn. unfold or_lazy.
  destruct (truthy (default VUndefined (props !! lit "message"))); reflexivity.
Qed.

(** ** Generating the cards *)

(** X8.  [handleDeckTypeSelection] ends in one of two ways, and in both the
    progress message is cleared and language, input text and download URL
    are as before.  Success: no alert, the selection screen, the cards are
    the parse of the reply, every one of them selected, the deck name is the
    trimmed suggestion.  Failure: the one alert, the same screen, the same
    cards. *)
Theorem handleDeckTypeSelection_outcomes (model : llm) (type : deck_type)
    (content : jsstring) (s : AppState) :
  let '(s', effects) := handleDeckTypeSelection model type content s in
  processing s' = [] /\ selectedLanguage s' = selectedLanguage s /\
  inputText s' = inputText s /\ downloadUrl s' = downloadUrl s /\
  ((effects = [] /\ step s' = StepSelection /\
    selectedWords s' = List.map (withSelected true) (extractedWords s') /\
    List.filter isSelected (selectedWords s') = selectedWords s' /\
    exists lang name reply,
      selectedLanguage s = Some lang /\
      sendRequestToFlashExp model
        (DeckNameRequest (lang_name lang) (substring0 500 content)) = Ok name /\
      deckName s' = Str.trim name /\
      match type with
      | Vocabulary =>
          sendRequestToFlashExp model (VocabularyRequest (lang_name lang) content)
          = Ok reply /\ parseVocabulary reply = Ok (extractedWords s')
      | QA =>
          sendRequestToFlashExp model (QARequest (lang_name lang) content)
          = Ok reply /\ parseQA reply = Ok (extractedWords s')
      end) \/
   (effects = [cardsFailed] /\ step s' = step s /\
    extractedWords s' = extractedWords s /\ selectedWords s' = selectedWords s)).
Proof.
  assert (Hall : forall l : list entry,
             List.filter isSelected (List.map (withSelected true) l)
             = List.map (withSelected true) l).
  { induction l as [|w l IH]; cbn; [reflexivity|]. rewrite IH. reflexivity. }
  unfold handleDeckTypeSelection.
  destruct (selectedLanguage s) as [lang|] eqn:Hlang;
    [|repeat split; try exact Hlang; right; repeat split].
  destruct (sendRequestToFlashExp model (DeckNameRequest _ _)) as [name|] eqn:Hname;
    [|repeat split; try exact Hlang; right; repeat split].
  destruct type.
  - destruct (sendRequestToFlashExp model (VocabularyRequest _ _)) as [reply|] eqn:Hr;
      [|repeat split; try exact Hlang; right; repeat split].
    destruct (parseVocabulary reply) as [words|] eqn:Hp;
      [|repeat split; try exact Hlang; right; repeat split].
    repeat split; try exact Hlang. left. repeat split.
    + apply Hall.
    + exists lang, name, reply. repeat split; assumption.
  - destruct (sendRequestToFlashExp model (QARequest _ _)) as [reply|] eqn:Hr;
      [|repeat split; try exact Hlang; right; repeat split].
    destruct (parseQA reply) as [words|] eqn:Hp;
      [|repeat split; try exact Hlang; right; repeat split].
    repeat split; try exact Hlang. left. repeat split.
    + apply Hall.
    + exists lang, name, reply. repeat split; assumption.
Qed.

(** X9.  When the reply to a question/answer request has a block of a single
    line, the handler reports the failure and stays on its screen with the
    cards it had -- but the deck name is already the new suggestion. *)
Theorem handleDeckTypeSelection_one_line_block (model : llm) (content : jsstring)
    (s : AppState) (lang : Language) (name response block : jsstring) :
  selectedLanguage s = Some lang ->
  sendRequestToFlashExp model
    (DeckNameRequest (lang_name lang) (substring0 500 content)) = Ok name ->
  sendRequestToFlashExp model (QARequest (lang_name lang) content) = Ok response ->
  In block (qaBlocks response) -> ~ In LF block ->
  let '(s', effects) := handleDeckTypeSelection model QA content s in
  effects = [cardsFailed] /\ step s' = step s /\
  extractedWords s' = extractedWords s /\ processing s' = [] /\
  deckName s' = Str.trim name.
Proof.
  intros Hlang Hname Hreply Hin Hno. unfold handleDeckTypeSelection.
  rewrite Hlang, Hname, Hreply, (parseQA_one_line_block _ _ Hin Hno).
  repeat split.
Qed.

Lemma handleDeckTypeSelection_one_line_block_witness :
  deckName (fst (handleDeckTypeSelection one_line_model QA (lit "Wo liegt Paris?")
                   choosing_type)) = lit "Paris".
Proof.
  pose proof (handleDeckTypeSelection_one_line_block one_line_model
                (lit "Wo liegt Paris?") choosing_type
                (Build_Language (lit "de") (lit "Deutsch") (lit "DE"))
                (lit " Paris ") (lit "F: only a question")
                (lit "F: only a question")
                eq_refl eq_refl eq_refl ltac:(left; reflexivity)
                ltac:(chars)) as H.
  destruct (handleDeckTypeSelection one_line_model QA (lit "Wo liegt Paris?")
              choosing_type) as [s' effects].
  cbn [fst]. destruct H as (_ & _ & _ & _ & ->). reflexivity.
Defined.

(** X10.  For vocabulary cards nothing depends on the shape of the reply:
    once a language is selected and both requests are answered, the handler
    opens the selection screen with one selected card for each trimmed
    non-empty line of the reply. *)
Theorem handleDeckTypeSelection_vocabulary_answered (model : llm)
    (content : jsstring) (s : AppState) (lang : Language) (name reply : jsstring) :
  selectedLanguage s = Some lang ->
  sendRequestToFlashExp model
    (DeckNameRequest (lang_name lang) (substring0 500 content)) = Ok name ->
  sendRequestToFlashExp model (VocabularyRequest (lang_name lang) content) = Ok reply ->
  let '(s', effects) := handleDeckTypeSelection model Vocabulary content s in
  effects = [] /\ step s' = StepSelection /\
  parseVocabulary reply = Ok (extractedWords s') /\
  List.length (selectedWords s') = List.length (vocabularyLines reply) /\
  Forall (fun w => selected w = Some true) (selectedWords s').
Proof.
  intros Hlang Hname Hreply. unfold handleDeckTypeSelection.
  rewrite Hlang, Hname, Hreply.
  destruct (parseVocabulary_total reply) as [words Hwords]. rewrite Hwords.
  cbn. repeat split.
  - rewrite length_map.
    apply (proj1 (map_throwing_lookup _ _ _ Hwords)).
  - apply List.Forall_forall. intros w Hw. apply in_map_iff in Hw.
    destruct Hw as (w0 & <- & _). reflexivity.
Qed.

Lemma handleDeckTypeSelection_vocabulary_answered_witness :
  step (fst (handleDeckTypeSelection parrot Vocabulary (lit "Haus") choosing_type))
  = StepSelection.
Proof.
  pose proof (handleDeckTypeSelection_vocabulary_answered parrot (lit "Haus")
                choosing_type
                (Build_Language (lit "de") (lit "Deutsch") (lit "DE"))
                (lit "Haus;house") (lit "Haus;house")
                eq_refl eq_refl eq_refl) as H.
  destruct (handleDeckTypeSelection parrot Vocabulary (lit "Haus") choosing_type)
    as [s' effects].
  cbn [fst]. destruct H as (_ & -> & _). reflexivity.
Defined.

(** ** The image entry points *)

Lemma handleImage_noop (failure : jsstring) (model : llm) (p : picked)
    (s : AppState) :
  handleImage failure model p s = (s, []).
Proof. destruct p; reflexivity. Qed.

(** X11.  [RootApp] declares no [t], so [processImage] throws at its first
    statement and so do the [catch] blocks above it: whatever the picker
    returns and whatever the model would answer, [handleImageUpload] and
    [handleTakePhoto] leave the state as it is and show nothing. *)
Theorem image_handlers_change_nothing (model : llm) (p : picked) (s : AppState) :
  resolve RootApp_scope "t" = None /\
  handleImageUpload model p s = (s, []) /\
  handleTakePhoto model p s = (s, []).
Proof. split; [reflexivity|]. split; apply handleImage_noop. Qed.

(** ** The workflow as a whole *)

Lemma handleDeckTypeSelection_ends (model : llm) (type : deck_type)
    (content : jsstring) (s : AppState) :
  let s' := fst (handleDeckTypeSelection model type content s) in
  processing s' = [] /\ selectedLanguage s' = selectedLanguage s /\
  ((step s' = StepSelection /\
    selectedWords s' = List.map (withSelected true) (extractedWords s')) \/
   (step s' = step s /\ extractedWords s' = extractedWords s /\
    selectedWords s' = selectedWords s)).
Proof.
  cbv zeta. unfold handleDeckTypeSelection.
  destruct (selectedLanguage s) as [lang|] eqn:Hlang;
    [|cbn; rewrite Hlang; repeat split; right; repeat split].
  destruct (sendRequestToFlashExp model (DeckNameRequest _ _));
    [|cbn; rewrite Hlang; repeat split; right; repeat split].
  destruct type;
    (destruct (sendRequestToFlashExp model _);
     [|cbn; rewrite Hlang; repeat split; right; repeat split]).
  - destruct (parseVocabulary a0); cbn; rewrite Hlang; repeat split;
      [left|right]; repeat split.
  - destruct (parseQA a0); cbn; rewrite Hlang; repeat split;
      [left|right]; repeat split.
Qed.

Lemma handleSubmit_ends (getTranslation : option Language -> jsstring -> jsstring)
    (decode : list N -> jsstring) (parse : jsstring -> option jsval)
    (post : payload -> outcome) (s : AppState) :
  let s' := fst (handleSubmit getTranslation decode parse post s) in
  processing s = [] ->
  processing s' = [] /\ (step s' = step s \/ step s' = StepResult) /\
  selectedLanguage s' = selectedLanguage s /\
  extractedWords s' = extractedWords s /\
  (step s' = step s ->
   selectedWords s' = selectedWords s \/
   selectedWords s' = List.map (withSelected true) (extractedWords s)).
Proof.
  intros s' Hproc. subst s'. unfold handleSubmit.
  cbn [selectedWords setIsLoading].
  destruct (Nat.eqb _ 0); [cbn; repeat split; auto|].
  destruct (sendRequestToApi _ _ _ _ _) as [effects [[|]|e]]; cbn;
    try destruct (Str.truthy _); cbn; repeat split; auto.
Qed.

(** X12.  Every handled event leaves the progress message empty (so the
    next render shows a screen, not the progress indicator), and moves along
    an edge of the workflow: language to input, input to text (or stays),
    text to deck type, deck type to selection (or stays), selection to result
    (or stays), result to language. *)
Theorem dispatch_follows_workflow
    (getTranslation : option Language -> jsstring -> jsstring)
    (decode : list N -> jsstring) (parse : jsstring -> option jsval)
    (s s' : AppState) (ev : event) (effects : list effect) :
  dispatch getTranslation decode parse s ev = Some (s', effects) ->
  processing s = [] /\ processing s' = [] /\ follows (step s) (step s') = true.
Proof.
  unfold dispatch. destruct (processing s) as [|c pr] eqn:Hproc; [|discriminate].
  cbn [Str.truthy]. intros Hd. split; [reflexivity|].
  destruct (step s) eqn:Hstep, ev; try discriminate.
  - injection Hd as <- <-. cbn. rewrite ?Hproc, ?Hstep. split; reflexivity.
  - injection Hd as <- <-. cbn. rewrite ?Hproc, ?Hstep. split; reflexivity.
  - unfold handleImageUpload in Hd. rewrite handleImage_noop in Hd.
    injection Hd as <- <-. rewrite ?Hproc, ?Hstep. split; reflexivity.
  - unfold handleTakePhoto in Hd. rewrite handleImage_noop in Hd.
    injection Hd as <- <-. rewrite ?Hproc, ?Hstep. split; reflexivity.
  - destruct (Str.truthy text); [|discriminate].
    injection Hd as <- <-. split; reflexivity.
  - pose proof (handleDeckTypeSelection_ends model type (inputText s) s) as H.
    cbv zeta in H.
    destruct (handleDeckTypeSelection model type (inputText s) s) as [s1 e1].
    injection Hd as <- <-. cbn [fst] in H.
    destruct H as (Hp & _ & [(-> & _) | (-> & _)]);
      rewrite ?Hstep; split; auto.
  - injection Hd as <- <-. cbn. rewrite ?Hproc, ?Hstep. split; reflexivity.
  - injection Hd as <- <-. cbn. rewrite ?Hproc, ?Hstep. split; reflexivity.
  - destruct (_ || _); [discriminate|].
    pose proof (handleSubmit_ends getTranslation decode parse post s Hproc) as H.
    cbv zeta in H.
    destruct (handleSubmit getTranslation decode parse post s) as [s1 e1].
    injection Hd as <- <-. cbn [fst] in H.
    destruct H as (Hp & [-> | ->] & _); rewrite ?Hstep; split; auto.
  - injection Hd as <- <-. split; reflexivity.
Qed.

Lemma dispatch_follows_workflow_witness :
  follows (step deck_done) (step (resetApp deck_done)) = true.
Proof.
  apply (dispatch_follows_workflow same_text latin1 not_json deck_done
           (resetApp deck_done) NewDeckPressed []).
  reflexivity.
Defined.

Lemma mapAt_keeps_flags (index : nat) (f : entry -> entry) (l : list entry) :
  (forall w, is_Some (selected w) -> is_Some (selected (f w))) ->
  Forall (fun w => is_Some (selected w)) l ->
  Forall (fun w => is_Some (selected w)) (mapAt index f l).
Proof.
  intros Hf Hall. apply Forall_lookup_2. intros j w Hj.
  rewrite mapAt_lookup in Hj.
  destruct (l !! j) as [w0|] eqn:Hw0; [|discriminate]. cbn in Hj.
  injection Hj as <-.
  pose proof (Forall_lookup_1 _ _ _ _ Hall Hw0) as Hsel.
  destruct (Nat.eqb j index); [apply Hf|]; exact Hsel.
Qed.

Lemma mounted_flags (l : list entry) :
  Forall (fun w => is_Some (selected w)) (List.map (withSelected true) l).
Proof.
  apply List.Forall_forall. intros w Hw. apply in_map_iff in Hw.
  destruct Hw as (w0 & <- & _). cbn. eauto.
Qed.

(** X13.  Whenever the application waits for an event -- at the start, and
    each time a handler has run to its end -- no progress message is
    pending, a language is selected on every screen but the language screen,
    and on the selection screen the editor holds one card for each extracted
    card, each with its [selected] flag set to a boolean.  (Nothing is said
    of the states while a handler runs.) *)
Theorem states_at_rest_are_consistent
    (getTranslation : option Language -> jsstring -> jsstring)
    (decode : list N -> jsstring) (parse : jsstring -> option jsval)
    (s : AppState) :
  atRest getTranslation decode parse s ->
  processing s = [] /\
  (step s = StepLanguage \/ is_Some (selectedLanguage s)) /\
  (step s = StepSelection ->
   List.length (selectedWords s) = List.length (extractedWords s) /\
   Forall (fun w => is_Some (selected w)) (selectedWords s)).
Proof.
  induction 1 as [|s s' ev effects Hreach (Hproc & Hlang & Hsel) Hd].
  - repeat split; [left; reflexivity|discriminate].
  - assert (Hkept : step s <> StepLanguage -> is_Some (selectedLanguage s))
      by (intros Hne; destruct Hlang as [H|H]; [contradiction|exact H]).
    unfold dispatch in Hd. rewrite Hproc in Hd. cbn [Str.truthy] in Hd.
    destruct (step s) eqn:Hstep, ev; try discriminate.
    + injection Hd as <- <-. cbn.
      split; [exact Hproc|]. split; [right; eauto|discriminate].
    + injection Hd as <- <-. cbn.
      split; [exact Hproc|]. split; [right; apply Hkept|]; discriminate.
    + unfold handleImageUpload in Hd. rewrite handleImage_noop in Hd.
      injection Hd as <- <-. rewrite Hstep.
      split; [exact Hproc|]. split; [right; apply Hkept|]; discriminate.
    + unfold handleTakePhoto in Hd. rewrite handleImage_noop in Hd.
      injection Hd as <- <-. rewrite Hstep.
      split; [exact Hproc|]. split; [right; apply Hkept|]; discriminate.
    + destruct (Str.truthy text); [|discriminate].
      injection Hd as <- <-. cbn.
      split; [reflexivity|]. split; [right; apply Hkept|]; discriminate.
    + pose proof (handleDeckTypeSelection_ends model type (inputText s) s) as H.
      cbv zeta in H.
      destruct (handleDeckTypeSelection model type (inputText s) s) as [s1 e1].
      injection Hd as <- <-. cbn [fst] in H.
      destruct H as (Hp & Hl & Hcases). split; [exact Hp|]. split.
      * right. rewrite Hl. apply Hkept. discriminate.
      * intros Hs1. destruct Hcases as [(_ & ->) | (Hsame & _)].
        -- split; [apply length_map|apply mounted_flags].
        -- congruence.
    + injection Hd as <- <-. specialize (Hsel eq_refl). destruct Hsel as [Hlen Hflags].
      cbn. split; [exact Hproc|]. split; [right; apply Hkept; discriminate|].
      intros _. split.
      * rewrite mapAt_length. exact Hlen.
      * apply mapAt_keeps_flags; [|exact Hflags]. intros w _. cbn. eauto.
    + injection Hd as <- <-. specialize (Hsel eq_refl). destruct Hsel as [Hlen Hflags].
      cbn. split; [exact Hproc|]. split; [right; apply Hkept; discriminate|].
      intros _. split.
      * rewrite mapAt_length. exact Hlen.
      * apply mapAt_keeps_flags; [|exact Hflags].
        intros w Hw. destruct f; exact Hw.
    + destruct (_ || _); [discriminate|].
      pose proof (handleSubmit_ends getTranslation decode parse post s Hproc) as H.
      cbv zeta in H.
      destruct (handleSubmit getTranslation decode parse post s) as [s1 e1].
      injection Hd as <- <-. cbn [fst] in H.
      destruct H as (Hp & Hst & Hl & Hw & Hkeep). split; [exact Hp|]. split.
      * right. rewrite Hl. apply Hkept. discriminate.
      * intros Hs1. specialize (Hsel eq_refl). destruct Hsel as [Hlen Hflags].
        destruct (Hkeep ltac:(congruence)) as [-> | ->].
        -- rewrite Hw. split; assumption.
        -- rewrite Hw. split; [apply length_map|apply mounted_flags].
    + injection Hd as <- <-. cbn.
      split; [reflexivity|]. split; [left; reflexivity|discriminate].
Qed.

Lemma states_at_rest_are_consistent_witness :
  processing (setStep StepInput
                (setSelectedLanguage
                   (Some (Build_Language (lit "de") (lit "Deutsch") (lit "DE")))
                   initialState)) = [].
Proof.
  apply (states_at_rest_are_consistent same_text latin1 not_json).
  apply (atRest_dispatch _ _ _ initialState _
           (LanguageSelected (Build_Language (lit "de") (lit "Deutsch") (lit "DE")))
           []).
  - apply atRest_initial.
  - reflexivity.
Defined.

(** ** More on the parsers *)

Lemma map_throwing_app {A B} (f : A -> result B) (l1 l2 : list A) :
  map_throwing f (l1 ++ l2)
  = x ← map_throwing f l1; y ← map_throwing f l2; Ok (x ++ y).
Proof.
  induction l1 as [|a l1 IH]; cbn.
  - destruct (map_throwing f l2); reflexivity.
  - destruct (f a); cbn; [|reflexivity]. rewrite IH.
    destruct (map_throwing f l1); cbn; [|reflexivity].
    destruct (map_throwing f l2); reflexivity.
Qed.

Lemma map_throwing_In {A B} (f : A -> result B) (l : list A) (r : list B) (b : B) :
  map_throwing f l = Ok r -> In b r -> exists a, In a l /\ f a = Ok b.
Proof.
  revert r. induction l as [|a l IH]; intros r Hmap Hin; cbn in Hmap.
  - injection Hmap as <-. destruct Hin.
  - destruct (f a) as [b0|] eqn:Hb; [|discriminate]. cbn in Hmap.
    destruct (map_throwing f l) as [bs|]; [|discriminate]. cbn in Hmap.
    injection Hmap as <-. destruct Hin as [<-|Hin].
    + exists a. split; [left; reflexivity|exact Hb].
    + destruct (IH bs eq_refl Hin) as (a' & Ha' & Hf). eauto using in_cons.
Qed.

Lemma split_from_single_app (c : N) (piece a b : jsstring) :
  Str.split_from [c] 0 piece (a ++ c :: b)
  = Str.split_from [c] 0 piece a ++ Str.split_from [c] 0 [] b.
Proof.
  revert piece. induction a as [|x a IH]; intros piece.
  - cbn [app Str.split_from]. rewrite startsWith_single, N.eqb_refl. reflexivity.
  - cbn [app Str.split_from]. rewrite !startsWith_single.
    destruct (c =? x); cbn [Nat.pred List.length]; rewrite IH; reflexivity.
Qed.

(** The pieces of a string are made of its code units. *)
Lemma split_from_pieces (P : N -> Prop) (c : N) (piece s : jsstring) :
  Forall P piece -> Forall P s ->
  Forall (Forall P) (Str.split_from [c] 0 piece s).
Proof.
  revert piece. induction s as [|x s IH]; intros piece Hp Hs.
  - cbn. constructor; [|constructor]. apply Forall_rev. exact Hp.
  - inversion Hs as [|? ? Hx Hs']; subst. cbn [Str.split_from].
    rewrite startsWith_single. destruct (c =? x); cbn [Nat.pred List.length].
    + constructor; [apply Forall_rev; exact Hp|]. apply IH; [constructor|exact Hs'].
    + apply IH; [constructor; assumption|exact Hs'].
Qed.

Lemma trim_keeps (P : N -> Prop) (s : jsstring) : Forall P s -> Forall P (Str.trim s).
Proof.
  intros Hs. apply List.Forall_forall. intros c Hc.
  rewrite List.Forall_forall in Hs. apply Hs. apply trim_part. exact Hc.
Qed.

Lemma trim_whitespace (s : jsstring) : allWhiteSpace s -> Str.trim s = [].
Proof.
  intros Hs.
  pose proof (trim_sandwich s [] [] Hs ltac:(constructor) eq_refl eq_refl) as H.
  cbn in H. rewrite app_nil_r in H. exact H.
Qed.

Lemma trim_idempotent (s : jsstring) : Str.trim (Str.trim s) = Str.trim s.
Proof.
  destruct (trim_decompose s) as (_ & _ & _ & _ & _ & Hs & He).
  apply trim_clean; assumption.
Qed.

Lemma vocabularyLines_app (a b : jsstring) :
  vocabularyLines (a ++ LF :: b) = vocabularyLines a ++ vocabularyLines b.
Proof.
  unfold vocabularyLines, Str.split.
  rewrite split_from_single_app, List.map_app, List.filter_app. reflexivity.
Qed.

(** X14.  The vocabulary parse works line by line: the entries of two texts
    joined by a line break are the entries of the first followed by those of
    the second, so order and duplicates are kept; the empty text and a text
    of whitespace only give no entry. *)
Theorem parseVocabulary_line_by_line (a b : jsstring) :
  (exists ea eb,
      parseVocabulary a = Ok ea /\ parseVocabulary b = Ok eb /\
      parseVocabulary (a ++ LF :: b) = Ok (ea ++ eb)) /\
  parseVocabulary [] = Ok [] /\
  (allWhiteSpace a -> parseVocabulary a = Ok []).
Proof.
  split; [|split; [reflexivity|]].
  - destruct (parseVocabulary_total a) as [ea Ha].
    destruct (parseVocabulary_total b) as [eb Hb].
    exists ea, eb. split; [exact Ha|]. split; [exact Hb|].
    unfold parseVocabulary in *.
    rewrite vocabularyLines_app, map_throwing_app, Ha, Hb. reflexivity.
  - intros Hws. unfold parseVocabulary.
    assert (Hlines : vocabularyLines a = []); [|rewrite Hlines; reflexivity].
    unfold vocabularyLines, Str.split.
    pose proof (split_from_pieces _ LF [] a ltac:(constructor) Hws) as Hpieces.
    induction Hpieces as [|p ps Hp _ IH]; [reflexivity|].
    cbn. rewrite (trim_whitespace _ Hp). exact IH.
Qed.

Lemma parseVocabulary_line_by_line_witness :
  parseVocabulary (lit "  " ++ [9; 13]) = Ok [].
Proof.
  apply (parseVocabulary_line_by_line (lit "  " ++ [9; 13]) []).
  repeat constructor.
Defined.

Lemma mounted_key_is_sent (entries : list entry) (e : entry) (k name : jsstring)
    (p : payload) :
  In e entries -> payloadKey e = Some k -> k <> lit "__proto__" ->
  buildPayload (List.map (withSelected true) entries) name = Ok p ->
  is_Some (vocabulary p !! k).
Proof.
  intros Hin Hk Hproto Hp.
  rewrite (fillVocabObject_keys _ _ _ k (buildPayload_ok_vocabulary _ _ _ Hp)).
  right. split; [exact Hproto|].
  exists (withSelected true e). split; [|exact Hk].
  apply in_map. exact Hin.
Qed.

(** X15.  What the parsers hand to the editor is ready for the request.
    The [translated] of a vocabulary entry, when present, is trimmed, and it
    is a key of every payload built from the cards as the selection screen
    mounts them, unless it is "__proto__".  A question/answer record has
    both fields, trimmed, and no [baseForm]; the payload of the mounted
    records is always built, and has the question as a key unless that is
    "__proto__".  No parser sets [selected]. *)
Theorem parsed_fields_are_trimmed (text : jsstring) (entries : list entry)
    (e : entry) :
  In e entries ->
  (parseVocabulary text = Ok entries ->
   selected e = None /\
   forall tr, translated e = Some tr ->
     Str.trim tr = tr /\
     forall name p,
       buildPayload (List.map (withSelected true) entries) name = Ok p ->
       tr <> lit "__proto__" -> is_Some (vocabulary p !! tr)) /\
  (parseQA text = Ok entries ->
   selected e = None /\ baseForm e = None /\
   exists q a, translated e = Some q /\ original e = Some a /\
               Str.trim q = q /\ Str.trim a = a /\
               forall name,
                 exists p,
                   buildPayload (List.map (withSelected true) entries) name = Ok p /\
                   (q <> lit "__proto__" -> is_Some (vocabulary p !! q))).
Proof.
  intros Hin. split; intros Hparse.
  - destruct (map_throwing_In _ _ _ _ Hparse Hin) as (line & _ & Hline).
    destruct (split_from_nonempty [SEMI] 0 [] line) as (p & ps & Hsplit).
    fold (Str.split [SEMI] line) in Hsplit.
    rewrite (parseVocabularyLine_pieces _ _ _ Hsplit) in Hline.
    assert (Htr : forall x, Str.trim <$> ps !! 0%nat = Some x -> Str.trim x = x).
    { intros x Hx. destruct (ps !! 0%nat) as [y|]; [|discriminate].
      cbn in Hx. injection Hx as <-. apply trim_idempotent. }
    assert (Hfields : selected e = None /\
                      forall tr, translated e = Some tr -> Str.trim tr = tr).
    { destruct (exec vocabulary_pattern (Str.trim p)); injection Hline as <-;
        cbn [selected translated]; (split; [reflexivity|exact Htr]). }
    destruct Hfields as [Hsel Htrim]. split; [exact Hsel|].
    intros tr Htrans. split; [exact (Htrim _ Htrans)|].
    intros name pl Hpl Hproto.
    apply (mounted_key_is_sent entries e tr name pl Hin); [|exact Hproto|exact Hpl].
    unfold payloadKey. rewrite Htrans. cbn. rewrite (Htrim _ Htrans). reflexivity.
  - assert (Hall : Forall hasStrings (List.map (withSelected true) entries)).
    { apply List.Forall_forall. intros w Hw. apply in_map_iff in Hw.
      destruct Hw as (w0 & <- & Hw0).
      destruct (map_throwing_In _ _ _ _ Hparse Hw0) as (block & _ & Hblock).
      unfold parseQAPair, stripMarker in Hblock.
      destruct (Str.split [LF] block !! 0%nat) as [l0|]; [|discriminate].
      destruct (Str.split [LF] block !! 1%nat) as [l1|]; [|discriminate].
      cbn in Hblock. injection Hblock as <-. split; cbn; eauto. }
    destruct (map_throwing_In _ _ _ _ Hparse Hin) as (block & _ & Hblock).
    unfold parseQAPair, stripMarker in Hblock.
    destruct (Str.split [LF] block !! 0%nat) as [l0|]; [|discriminate].
    destruct (Str.split [LF] block !! 1%nat) as [l1|]; [|discriminate].
    cbn in Hblock. injection Hblock as He.
    split; [subst e; reflexivity|]. split; [subst e; reflexivity|].
    exists (Str.trim (Str.remove_first (lit "F: ") l0)),
           (Str.trim (Str.remove_first (lit "A: ") l1)).
    split; [subst e; reflexivity|]. split; [subst e; reflexivity|].
    split; [apply trim_idempotent|]. split; [apply trim_idempotent|].
    intros name.
    destruct (fillVocabObject_total _ ∅ Hall) as [m Hm].
    exists (Payload (if Str.truthy name then name else lit "Default Deck") m).
    assert (Hp : buildPayload (List.map (withSelected true) entries) name
                 = Ok (Payload (if Str.truthy name then name else lit "Default Deck") m))
      by (unfold buildPayload; rewrite Hm; reflexivity).
    split; [exact Hp|]. intros Hproto.
    apply (mounted_key_is_sent entries e _ name _ Hin); [|exact Hproto|exact Hp].
    subst e. unfold payloadKey. cbn. rewrite trim_idempotent. reflexivity.
Qed.

Lemma parsed_fields_are_trimmed_witness :
  is_Some (vocabulary (Payload (lit "Animals") {[ lit "Haus" := lit "house" ]})
             !! lit "Haus").
Proof.
  destruct (parsed_fields_are_trimmed (lit "house; Haus ")
              [Entry (Some (lit "house")) (Some (lit "Haus")) (Some (lit "house")) None]
              (Entry (Some (lit "house")) (Some (lit "Haus")) (Some (lit "house")) None)
              ltac:(left; reflexivity)) as [Hv _].
  destruct (Hv ltac:(vm_compute; reflexivity)) as [_ Htr].
  destruct (Htr (lit "Haus") eq_refl) as [_ Hkey].
  apply (Hkey (lit "Animals")); [reflexivity|vm_compute; discriminate].
Defined.

(** X16.  The question/answer parse throws exactly when some non-empty block
    has no line break, and what it throws is always the TypeError of reading
    [replace] from [undefined]; the empty reply gives no record. *)
Theorem parseQA_throws_iff (response : jsstring) :
  (parseQA response = Throw TypeError <->
   exists block, In block (qaBlocks response) /\ ~ In LF block) /\
  (forall e, parseQA response = Throw e -> e = TypeError) /\
  parseQA [] = Ok [].
Proof.
  assert (Hdec : (forall block, In block (qaBlocks response) -> In LF block) \/
                 exists block, In block (qaBlocks response) /\ ~ In LF block).
  { induction (qaBlocks response) as [|b bs IH]; [left; intros ? []|].
    destruct (in_dec N.eq_dec LF b) as [Hb|Hb].
    - destruct IH as [IH|(x & Hx & Hno)].
      + left. intros block [<-|H]; auto.
      + right. exists x. split; [right|]; assumption.
    - right. exists b. split; [left; reflexivity|exact Hb]. }
  split; [|split; [|reflexivity]].
  - split.
    + intros Hthrow. destruct Hdec as [Hall|Hex]; [|exact Hex].
      destruct (parseQA_total response Hall) as [entries He]. congruence.
    + intros (block & Hin & Hno). eapply parseQA_one_line_block; eassumption.
  - intros e He. destruct Hdec as [Hall|(block & Hin & Hno)].
    + destruct (parseQA_total response Hall) as [entries Hok]. congruence.
    + rewrite (parseQA_one_line_block _ _ Hin Hno) in He. congruence.
Qed.

Lemma parseQA_throws_iff_witness :
  parseQA (lit "F: only a question") = Throw TypeError.
Proof.
  apply (parseQA_throws_iff (lit "F: only a question")).
  exists (lit "F: only a question"). split; [left; reflexivity|chars].
Defined.

(** X17.  The fallback record without [baseForm] is only for a left-hand
    side with a line terminator inside (a carriage return or a Unicode line
    separator, since the text was split at the line feeds).  For a line
    without any, the entry has [baseForm]: when the left-hand side has an
    opening parenthesis and ends with a closing one, [baseForm] is the text
    before the first opening parenthesis without the whitespace at its end
    and [original] is the text between that parenthesis and the last one,
    or [baseForm] when that text is empty; otherwise both are the whole
    left-hand side. *)
Theorem parseVocabularyLine_baseForm (line : jsstring) :
  noLineBreak line ->
  exists lhs e base,
    List.map Str.trim (Str.split [SEMI] line) !! 0%nat = Some lhs /\
    parseVocabularyLine line = Ok e /\ baseForm e = Some base /\
    ((exists gap form,
         lhs = base ++ gap ++ LPAREN :: form ++ [RPAREN] /\
         ~ In LPAREN base /\ endsClean base = true /\ allWhiteSpace gap /\
         original e = Some (match form with [] => base | _ :: _ => form end)) \/
     ((~ In LPAREN lhs \/ last lhs <> Some RPAREN) /\
      base = lhs /\ original e = Some lhs)).
Proof.
  intros Hline.
  destruct (split_from_nonempty [SEMI] 0 [] line) as (p & ps & Hsplit).
  fold (Str.split [SEMI] line) in Hsplit.
  assert (Hp : noLineBreak (Str.trim p)).
  { apply trim_keeps.
    pose proof (split_from_pieces _ SEMI [] line ltac:(constructor) Hline) as H.
    fold (Str.split [SEMI] line) in H. rewrite Hsplit in H.
    inversion H; assumption. }
  assert (Hlhs : List.map Str.trim (Str.split [SEMI] line) !! 0%nat
                 = Some (Str.trim p))
    by (rewrite Hsplit; reflexivity).
  destruct (parseVocabularyLine_by_shape line (Str.trim p) Hlhs Hp)
    as (e & base & He & Hbase & _ & Hshape).
  exists (Str.trim p), e, base. repeat split; assumption.
Qed.

Lemma parseVocabularyLine_baseForm_witness :
  exists e base, parseVocabularyLine (lit "Haus;house") = Ok e /\
                 baseForm e = Some base.
Proof.
  destruct (parseVocabularyLine_baseForm (lit "Haus;house") ltac:(chars))
    as (lhs & e & base & _ & He & Hb & _).
  exists e, base. split; assumption.
Defined.

(** X18.  Empty parentheses count as no parentheses for [original]: a line
    "base ();translation" gives [original] and [baseForm] base. *)
Theorem parseVocabularyLine_empty_parentheses (base translation : jsstring) :
  ~ In SEMI base -> ~ In SEMI translation -> ~ In LPAREN base ->
  noLineBreak (Str.trim base) ->
  parseVocabularyLine (base ++ lit " ();" ++ translation)
  = Ok (Entry (Some (Str.trim base)) (Some (Str.trim translation))
          (Some (Str.trim base)) None).
Proof.
  intros Hsb Hst Hpb Hdb.
  assert (Hlhs : ~ In SEMI (base ++ lit " (" ++ [] ++ lit ")")).
  { rewrite !in_app_iff. intros [H|[H|[H|H]]]; try contradiction;
      vm_compute in H; intuition discriminate. }
  replace (base ++ lit " ();" ++ translation)
    with ((base ++ lit " (" ++ [] ++ lit ")") ++ SEMI :: translation)
    by (change (lit " ();") with (lit " (" ++ [] ++ lit ")" ++ [SEMI]);
        rewrite <- !app_assoc; reflexivity).
  rewrite (parseVocabularyLine_pieces _ (base ++ lit " (" ++ [] ++ lit ")")
             [translation]).
  - destruct (trim_before_paren base []) as (gap & Hgap & ->).
    destruct (exec_parenthesized (Str.trim base) gap []) as (m & -> & -> & ->).
    + intros H. apply Hpb. eapply trim_part. exact H.
    + exact Hdb.
    + destruct (trim_decompose base) as (? & ? & _ & _ & _ & _ & He). exact He.
    + exact Hgap.
    + constructor.
    + reflexivity.
  - rewrite (split_single_first _ _ _ Hlhs), (split_single_absent _ _ Hst).
    reflexivity.
Qed.

Lemma parseVocabularyLine_empty_parentheses_witness :
  parseVocabularyLine (lit "Haus ();house")
  = Ok (Entry (Some (lit "Haus")) (Some (lit "house")) (Some (lit "Haus")) None).
Proof.
  apply (parseVocabularyLine_empty_parentheses (lit "Haus") (lit "house")); chars.
Defined.

(** ** The proxy function *)

Lemma proxyFailure_shape (engineMessage : exn -> jsstring) (error : caught) :
  let r := proxyFailure engineMessage error in
  isBase64Encoded r = None /\ attachment r = None /\ statusCode r <> 0%Z /\
  exists v, response_body r = ErrorObject v /\ truthy v = true.
Proof.
  cbv zeta. unfold proxyFailure. cbn [isBase64Encoded attachment statusCode response_body].
  split; [reflexivity|]. split; [reflexivity|]. split.
  - destruct (error_response error) as [r|]; [|discriminate].
    destruct (Z.eqb_spec (status r) 0); [discriminate|assumption].
  - eexists. split; [reflexivity|].
    destruct (truthy (match error_response error with
                      | Some r => bodyProperty (data r) (lit "error")
                      | None => VUndefined
                      end)) eqn:H1; [exact H1|].
    destruct (truthy (messageOf engineMessage error)) eqn:H2; [exact H2|reflexivity].
Qed.

(** X19.  The proxy makes its upstream requests in order and only when it
    may: nothing for a method other than POST or a body that is not JSON,
    the conversion request with the parsed body, and the file request only
    with a truthy download URL taken from a fulfilled conversion request. *)
Theorem handler_upstream_calls (parse : jsstring -> option jsval)
    (engineMessage : exn -> jsstring)
    (post : jsval -> outcome) (get : jsval -> file_outcome) (event : proxy_event) :
  let calls := snd (handler parse engineMessage post get event) in
  (calls = [] \/
   (exists payload, calls = [UpstreamPost payload]) \/
   (exists payload url, calls = [UpstreamPost payload; UpstreamGet url])) /\
  (forall payload, In (UpstreamPost payload) calls ->
                   httpMethod event = lit "POST" /\
                   parse (event_body event) = Some payload) /\
  (forall url, In (UpstreamGet url) calls ->
               truthy url = true /\
               exists payload response,
                 parse (event_body event) = Some payload /\
                 post payload = Fulfilled response /\
                 url = bodyProperty (data response) (lit "download_url")) /\
  (httpMethod event <> lit "POST" -> calls = []).
Proof.
  cbv zeta. unfold handler.
  destruct (bool_decide_reflect (httpMethod event = lit "POST")) as [Hm|Hm];
    cbn [negb].
  2:{ cbn [snd]. split; [left; reflexivity|].
      split; [intros ? []|]. split; [intros ? []|]. reflexivity. }
  destruct (parse (event_body event)) as [payload|] eqn:Hparse.
  2:{ cbn [snd]. split; [left; reflexivity|].
      split; [intros ? []|]. split; [intros ? []|]. reflexivity. }
  destruct (post payload) as [response|error] eqn:Hpost.
  2:{ cbn [snd]. split; [right; left; eauto|].
      split; [intros p [[= <-]|[]]; split; [assumption|reflexivity]|].
      split; [intros u [H|[]]; discriminate|]. contradiction. }
  destruct (truthy (bodyProperty (data response) (lit "download_url"))) eqn:Hurl;
    cbn [negb].
  2:{ cbn [snd]. split; [right; left; eauto|].
      split; [intros p [[= <-]|[]]; split; [assumption|reflexivity]|].
      split; [intros u [H|[]]; discriminate|]. contradiction. }
  assert (Hcalls :
    snd (match get (bodyProperty (data response) (lit "download_url")) with
         | FileRejected error =>
             (proxyFailure engineMessage error,
              [UpstreamPost payload;
               UpstreamGet (bodyProperty (data response) (lit "download_url"))])
         | FileFulfilled bytes =>
             match getProperty payload (lit "deck_name") with
             | Throw e =>
                 (proxyFailure engineMessage (Native e),
                  [UpstreamPost payload;
                   UpstreamGet (bodyProperty (data response) (lit "download_url"))])
             | Ok name =>
                 (ProxyResponse 200
                    (Some (if truthy name then name else VString (lit "Anki-Cards")))
                    (FileBytes bytes) (Some true),
                  [UpstreamPost payload;
                   UpstreamGet (bodyProperty (data response) (lit "download_url"))])
             end
         end)
    = [UpstreamPost payload;
       UpstreamGet (bodyProperty (data response) (lit "download_url"))]).
  { destruct (get _); [destruct (getProperty _ _)|]; reflexivity. }
  rewrite Hcalls. split; [right; right; eauto|].
  split; [intros p [[= <-]|[H|[]]]; [split; [assumption|reflexivity]|discriminate]|].
  split; [|contradiction].
  intros u [H|[[= <-]|[]]]; [discriminate|]. split; [exact Hurl|]. eauto.
Qed.

Lemma handler_upstream_calls_witness :
  snd (handler parse_null no_engine_text converted file_ready
         (ProxyEvent (lit "GET") [])) = [].
Proof.
  apply (handler_upstream_calls parse_null no_engine_text converted file_ready
           (ProxyEvent (lit "GET") [])).
  discriminate.
Defined.

(** X20.  The proxy always answers, in one of two shapes.  A file: status
    200, base64 flag set, the bytes of the fetched file and a name for the
    attachment (the [deck_name] of the payload, or "Anki-Cards") -- only for
    a POST whose body parses, after the conversion request with that body
    was fulfilled, and with the bytes that the file request to the
    [download_url] of its answer was fulfilled with.  Or an error: no flag,
    no headers, a status that is not 0, and an [error] value that is always
    truthy, so the client always has a message to show. *)
Theorem handler_answers (parse : jsstring -> option jsval)
    (engineMessage : exn -> jsstring)
    (post : jsval -> outcome) (get : jsval -> file_outcome) (event : proxy_event) :
  let '(r, calls) := handler parse engineMessage post get event in
  (isBase64Encoded r = Some true /\ statusCode r = 200%Z /\
   exists payload response bytes name,
     let url := bodyProperty (data response) (lit "download_url") in
     httpMethod event = lit "POST" /\
     parse (event_body event) = Some payload /\
     post payload = Fulfilled response /\ truthy url = true /\
     calls = [UpstreamPost payload; UpstreamGet url] /\
     get url = FileFulfilled bytes /\ response_body r = FileBytes bytes /\
     getProperty payload (lit "deck_name") = Ok name /\
     attachment r = Some (if truthy name then name else VString (lit "Anki-Cards"))) \/
  (isBase64Encoded r = None /\ attachment r = None /\ statusCode r <> 0%Z /\
   exists v, response_body r = ErrorObject v /\ truthy v = true).
Proof.
  unfold handler.
  destruct (bool_decide_reflect (httpMethod event = lit "POST")) as [Hm|Hm];
    cbn [negb].
  2:{ right. cbn. repeat split; [discriminate|]. eexists. split; reflexivity. }
  destruct (parse (event_body event)) as [payload|] eqn:Hparse;
    [|right; apply proxyFailure_shape].
  destruct (post payload) as [response|error] eqn:Hpost;
    [|right; apply proxyFailure_shape].
  destruct (truthy (bodyProperty (data response) (lit "download_url"))) eqn:Hurl;
    cbn [negb]; [|right; apply proxyFailure_shape].
  destruct (get _) as [bytes|error] eqn:Hget; [|right; apply proxyFailure_shape].
  destruct (getProperty payload (lit "deck_name")) as [name|e] eqn:Hname;
    [|right; apply proxyFailure_shape].
  left. cbn [isBase64Encoded statusCode response_body attachment].
  split; [reflexivity|]. split; [reflexivity|].
  exists payload, response, bytes, name. cbv zeta.
  split; [exact Hm|]. split; [reflexivity|]. split; [exact Hpost|].
  split; [exact Hurl|]. split; [reflexivity|]. split; [exact Hget|].
  split; [reflexivity|]. split; [exact Hname|reflexivity].
Qed.

(** X21.  A body that is JSON [null] is forwarded like any other; when the
    service converts it and the file arrives, reading [deck_name] from
    [null] throws, and the proxy answers 500 although both requests were
    made and fulfilled. *)
Theorem handler_null_payload (parse : jsstring -> option jsval)
    (engineMessage : exn -> jsstring)
    (post : jsval -> outcome) (get : jsval -> file_outcome) (event : proxy_event)
    (response : response) (bytes : list N) :
  httpMethod event = lit "POST" ->
  parse (event_body event) = Some VNull ->
  post VNull = Fulfilled response ->
  truthy (bodyProperty (data response) (lit "download_url")) = true ->
  get (bodyProperty (data response) (lit "download_url")) = FileFulfilled bytes ->
  let '(r, calls) := handler parse engineMessage post get event in
  statusCode r = 500%Z /\ isBase64Encoded r = None /\
  calls = [UpstreamPost VNull;
           UpstreamGet (bodyProperty (data response) (lit "download_url"))].
Proof.
  intros Hm Hparse Hpost Hurl Hget. unfold handler.
  rewrite Hm, Hparse, Hpost, Hurl, Hget.
  rewrite bool_decide_eq_true_2 by reflexivity. cbn. repeat split.
Qed.

Lemma handler_null_payload_witness :
  let '(r, calls) := handler parse_null no_engine_text converted file_ready post_event in
  statusCode r = 500%Z /\ isBase64Encoded r = None /\
  calls = [UpstreamPost VNull; UpstreamGet (VString (lit "/f/1"))].
Proof.
  exact (handler_null_payload parse_null no_engine_text converted file_ready
           post_event
           (Response 200
              (Decoded (VObject {[ lit "download_url" := VString (lit "/f/1") ]})))
           (lit "PK") eq_refl eq_refl eq_refl eq_refl eq_refl).
Defined.

(** X22.  When the conversion service refuses, its status is passed on
    (500 when it has none) and, when its body has a truthy [error], that
    value is the [error] of the answer; the file is not requested. *)
Theorem handler_passes_refusal (parse : jsstring -> option jsval)
    (engineMessage : exn -> jsstring)
    (post : jsval -> outcome) (get : jsval -> file_outcome) (event : proxy_event)
    (payload : jsval) (status : Z) (d : body) (code : option jsstring)
    (request : bool) (message : jsstring) :
  httpMethod event = lit "POST" ->
  parse (event_body event) = Some payload ->
  post payload = Rejected (AxiosError (Some (Response status d)) code request message) ->
  let '(r, calls) := handler parse engineMessage post get event in
  calls = [UpstreamPost payload] /\
  statusCode r = (if Z.eqb status 0 then 500%Z else status) /\
  (truthy (bodyProperty d (lit "error")) = true ->
   response_body r = ErrorObject (bodyProperty d (lit "error"))).
Proof.
  intros Hm Hparse Hpost. unfold handler. rewrite Hm, Hparse, Hpost.
  rewrite bool_decide_eq_true_2 by reflexivity. cbn [negb].
  split; [reflexivity|]. split; [reflexivity|].
  intros Htruthy. unfold proxyFailure. cbn [response_body error_response data].
  rewrite Htruthy. reflexivity.
Qed.

Lemma handler_passes_refusal_witness :
  let '(r, calls) := handler parse_null no_engine_text refused file_ready post_event in
  calls = [UpstreamPost VNull] /\ statusCode r = 413%Z /\
  (true = true -> response_body r = ErrorObject (VString (lit "too big"))).
Proof.
  exact (handler_passes_refusal parse_null no_engine_text refused file_ready
           post_event VNull 413
           (Decoded (VObject {[ lit "error" := VString (lit "too big") ]}))
           None true (lit "Request failed with status code 413")
           eq_refl eq_refl eq_refl).
Defined.

(** ** The data URL *)

(** X23.  [imageToBase64] resolves with the piece between the first and the
    second comma of the data URL: for a prefix and base64 data without comma
    that is the data, whatever follows a later comma is dropped, and a
    result without comma gives [undefined]. *)
Theorem base64Data_strips_prefix (prefix data : jsstring) :
  ~ In COMMA prefix ->
  (~ In COMMA data -> base64Data (prefix ++ COMMA :: data) = Some data) /\
  base64Data prefix = None /\
  (forall more, ~ In COMMA data ->
                base64Data (prefix ++ COMMA :: data ++ COMMA :: more) = Some data).
Proof.
  intros Hp. unfold base64Data. split; [|split].
  - intros Hd. rewrite (split_single_first _ _ _ Hp), (split_single_absent _ _ Hd).
    reflexivity.
  - rewrite (split_single_absent _ _ Hp). reflexivity.
  - intros more Hd.
    rewrite (split_single_first _ _ _ Hp), (split_single_first _ _ _ Hd).
    reflexivity.
Qed.

Lemma base64Data_strips_prefix_witness :
  base64Data (lit "data:image/jpeg;base64,/9j/4AAQ") = Some (lit "/9j/4AAQ").
Proof.
  apply (base64Data_strips_prefix (lit "data:image/jpeg;base64") (lit "/9j/4AAQ"));
    chars.
Defined.

(** ** From the reply to the request *)

Lemma fillVocabObject_ok_hasStrings (es : list entry) (m m' : gmap jsstring jsstring) :
  fillVocabObject es m = Ok m' -> Forall hasStrings es.
Proof.
  revert m. induction es as [|e es IH]; intros m H; [constructor|].
  cbn in H. destruct (translated e) as [tr|] eqn:Htr; [|discriminate].
  destruct (original e) as [o|] eqn:Ho; [|discriminate].
  constructor; [|eapply IH; exact H].
  unfold hasStrings. rewrite Htr, Ho. eauto.
Qed.

Lemma filter_all_selected (l : list entry) :
  List.filter isSelected (List.map (withSelected true) l)
  = List.map (withSelected true) l.
Proof.
  induction l as [|e l IH]; [reflexivity|]. cbn. rewrite IH. reflexivity.
Qed.

(** The parsed entries have both strings exactly when every line has a
    semicolon. *)
Lemma parsed_hasStrings (reply : jsstring) (entries : list entry) :
  parseVocabulary reply = Ok entries ->
  Forall hasStrings entries <->
  Forall (fun line => In SEMI line) (vocabularyLines reply).
Proof.
  intros Hentries.
  destruct (map_throwing_lookup _ _ _ Hentries) as [Hlen Hlook].
  split; intros Hall.
  - apply Forall_lookup_2. intros i line Hline.
    destruct (Hlook i line Hline) as (e & He & Hi).
    destruct (parseVocabularyLine_total line) as (e' & He' & _ & Htr).
    assert (e' = e) as -> by congruence.
    apply Htr. exact (proj1 (Forall_lookup_1 _ _ _ _ Hall Hi)).
  - apply Forall_lookup_2. intros i e Hi.
    assert (Hlt : (i < List.length (vocabularyLines reply))%nat).
    { rewrite <- Hlen. apply lookup_lt_Some in Hi. exact Hi. }
    destruct (lookup_lt_is_Some_2 _ _ Hlt) as [line Hline].
    destruct (Hlook i line Hline) as (e0 & He0 & Hi0).
    assert (e0 = e) as -> by congruence.
    destruct (parseVocabularyLine_total line) as (e' & He' & Ho & Htr).
    assert (e' = e) as -> by congruence.
    split; [|exact Ho]. apply Htr. exact (Forall_lookup_1 _ _ _ _ Hall Hline).
Qed.

Lemma withSelected_hasStrings (b : bool) (l : list entry) :
  Forall hasStrings (List.map (withSelected b) l) <-> Forall hasStrings l.
Proof.
  rewrite List.Forall_map. reflexivity.
Qed.

(** X24.  From the reply to the request: when the user submits the
    selection as the vocabulary branch made it, without an edit, the
    conversion request is made exactly when every non-empty line of the
    reply has a semicolon; one line without it blocks the whole deck. *)
Theorem untouched_selection_is_sent
    (getTranslation : option Language -> jsstring -> jsstring)
    (decode : list N -> jsstring) (parse : jsstring -> option jsval)
    (post : payload -> outcome) (model : llm) (content : jsstring)
    (s : AppState) (lang : Language) (name reply : jsstring) :
  selectedLanguage s = Some lang ->
  sendRequestToFlashExp model
    (DeckNameRequest (lang_name lang) (substring0 500 content)) = Ok name ->
  sendRequestToFlashExp model (VocabularyRequest (lang_name lang) content) = Ok reply ->
  vocabularyLines reply <> [] ->
  let s1 := fst (handleDeckTypeSelection model Vocabulary content s) in
  let effects := snd (handleSubmit getTranslation decode parse post s1) in
  (exists p, In (Post p) effects) <->
  Forall (fun line => In SEMI line) (vocabularyLines reply).
Proof.
  intros Hlang Hname Hreply Hne. cbv zeta.
  destruct (parseVocabulary_total reply) as [entries Hentries].
  rewrite <- (parsed_hasStrings _ _ Hentries).
  rewrite <- (withSelected_hasStrings true).
  assert (Hlen : List.length entries <> 0%nat).
  { rewrite (proj1 (map_throwing_lookup _ _ _ Hentries)).
    destruct (vocabularyLines reply); [congruence|discriminate]. }
  unfold handleDeckTypeSelection. rewrite Hlang, Hname, Hreply, Hentries.
  cbn [fst]. unfold handleSubmit.
  cbn [selectedWords setIsLoading mountSelection setSelectedWords setProcessing
       setStep setExtractedWords setDeckName extractedWords deckName selectedLanguage].
  rewrite filter_all_selected, length_map.
  destruct (Nat.eqb_spec (List.length entries) 0) as [H0|_]; [contradiction|].
  destruct (sendRequestToApi_cases decode parse post
              (List.map (withSelected true) entries) (Str.trim name))
    as [(e & Hb & Hs) | [(p & e & Hb & Hs) | (p & n & c & Hb & Hs)]];
    rewrite Hs; cbn [snd app].
  - split.
    + intros [p [H|[]]]. discriminate.
    + intros Hall. destruct (fillVocabObject_total _ ∅ Hall) as [m Hm].
      unfold buildPayload in Hb. rewrite Hm in Hb. discriminate.
  - split; [|intros _; exists p; left; reflexivity].
    intros _. eapply fillVocabObject_ok_hasStrings.
    exact (buildPayload_ok_vocabulary _ _ _ Hb).
  - split; [|intros _; exists p; left; reflexivity].
    intros _. eapply fillVocabObject_ok_hasStrings.
    exact (buildPayload_ok_vocabulary _ _ _ Hb).
Qed.

Lemma untouched_selection_is_sent_witness :
  exists p,
    In (Post p)
       (snd (handleSubmit same_text latin1 not_json offline
               (fst (handleDeckTypeSelection parrot Vocabulary (lit "Haus")
                       choosing_type)))).
Proof.
  apply (untouched_selection_is_sent same_text latin1 not_json offline parrot
           (lit "Haus") choosing_type
           (Build_Language (lit "de") (lit "Deutsch") (lit "DE"))
           (lit "Haus;house") (lit "Haus;house") eq_refl eq_refl eq_refl).
  - vm_compute. discriminate.
  - vm_compute. constructor; [|constructor].
    repeat (first [left; reflexivity | right]).
Defined.
